(** * Konecta item registry: a shallow embedding of [main.py]

    The service keeps a module-level list [items_db] and a counter [next_id]
    and exposes handlers that read or update them.  Handlers are embedded as
    state-passing functions [db -> result A * db]; prices are IEEE 754
    binary64 values (Python [float]) computed with the axiom-free operations
    of [SpecFloat]; integers are unbounded ([Z], Python [int]). *)

From Stdlib Require Import ZArith Bool Sorted.
From Stdlib Require Import Floats.SpecFloat.
From Stdlib Require Strings.String Strings.Ascii.
Import (notations) String.
From stdpp Require Import base option list sorting.

Open Scope Z_scope.

(** ** Python [float]: binary64 *)

Module PyFloat.

Definition prec : Z := 53.
Definition emax : Z := 1024.

Definition float := spec_float.

Definition add : float -> float -> float := SFadd prec emax.
Definition sub : float -> float -> float := SFsub prec emax.
Definition ltb : float -> float -> bool := SFltb.
Definition leb : float -> float -> bool := SFleb.
Definition abs : float -> float := SFabs.

(** [float(n)] for an [int] that is exactly representable or not: the
    nearest double, ties to even. *)
Definition of_int (n : Z) : float := binary_normalize prec emax n 0 false.

(** The double nearest to the rational [n / d] (ties to even), the value
    a correctly rounded decimal-to-binary conversion returns. *)
Definition of_ratio (s : bool) (n d : positive) : float :=
  let '(q, e, l) := SFdiv_core_binary prec emax (Z.pos n) 0 (Z.pos d) 0 in
  binary_round_aux prec emax s q e l.

(** A decimal literal [m / 10^k], e.g. [1200.50] is [decimal 120050 2]. *)
Definition decimal (m : Z) (k : nat) : float :=
  let d := Z.to_pos (10 ^ Z.of_nat k) in
  match m with
  | Z0 => S754_zero false
  | Z.pos n => of_ratio false n d
  | Z.neg n => of_ratio true n d
  end.

(** [x / n] with [n] an [int], nonzero at every call site. *)
Definition div_int (x : float) (n : Z) : float := SFdiv prec emax x (of_int n).

(** Integer nearest to the non-negative rational [n / d], ties to even. *)
Definition rdiv_even (n d : Z) : Z :=
  let q := n / d in
  let r := n mod d in
  match 2 * r ?= d with
  | Lt => q
  | Gt => q + 1
  | Eq => if Z.even q then q else q + 1
  end.

(** Hundredths nearest to the exact value [m * 2^e]. *)
Definition hundredths (m : positive) (e : Z) : Z :=
  if 0 <=? e then Z.pos m * 2 ^ e * 100
  else rdiv_even (Z.pos m * 100) (2 ^ (- e)).

(** [round(x, 2)] on a float: non-finite values and zeros are returned as
    they are; a finite value is rounded on its exact binary value to two
    decimals (ties to even), and the resulting decimal is converted back
    to the nearest double, keeping the sign. *)
Definition round2 (x : float) : float :=
  match x with
  | S754_finite s m e =>
      match hundredths m e with
      | Z.pos k => of_ratio s k 100
      | _ => S754_zero s
      end
  | _ => x
  end.

Definition zero : float := S754_zero false.

End PyFloat.

Abbreviation float := PyFloat.float.

(** ** Numbers returned by the statistics handler

    [0] in [... if precios else 0] is an [int], the other branch a [float]. *)

Inductive number :=
  | PyInt (n : Z)
  | PyFloatV (x : float).

(** [round(v, 2)]: an [int] rounds to itself. *)
Definition py_round2 (v : number) : number :=
  match v with
  | PyInt n => PyInt n
  | PyFloatV x => PyFloatV (PyFloat.round2 x)
  end.

(** [sum(xs)] over floats.  The accumulator starts from the [int] 0, which
    becomes [0.0] at the first float.  Up to Python 3.11 the floats are added
    left to right; from 3.12 on the additions carry a Neumaier compensation
    term that is added at the end when it is finite and nonzero. *)
Inductive sum_algorithm := PlainSum | CompensatedSum.

Definition plain_sum (xs : list float) : float :=
  fold_left PyFloat.add xs PyFloat.zero.

Definition neumaier_step (acc : float * float) (x : float) : float * float :=
  let '(f_result, c) := acc in
  let t := PyFloat.add f_result x in
  let c' :=
    if PyFloat.leb (PyFloat.abs x) (PyFloat.abs f_result)
    then PyFloat.add c (PyFloat.add (PyFloat.sub f_result t) x)
    else PyFloat.add c (PyFloat.add (PyFloat.sub x t) f_result) in
  (t, c').

Definition is_finite (x : float) : bool :=
  match x with
  | S754_zero _ | S754_finite _ _ _ => true
  | _ => false
  end.

Definition is_zero (x : float) : bool :=
  match x with S754_zero _ => true | _ => false end.

(** The first float is added to the [int] start value by an ordinary
    addition; the compensated loop takes over from the second one. *)
Definition compensated_sum (xs : list float) : float :=
  match xs with
  | [] => PyFloat.zero
  | x :: rest =>
      let '(f_result, c) :=
        fold_left neumaier_step rest (PyFloat.add PyFloat.zero x, PyFloat.zero) in
      if negb (is_zero c) && is_finite c then PyFloat.add f_result c else f_result
  end.

Definition py_sum (alg : sum_algorithm) (xs : list float) : number :=
  match xs with
  | [] => PyInt 0
  | _ =>
      PyFloatV (match alg with
                | PlainSum => plain_sum xs
                | CompensatedSum => compensated_sum xs
                end)
  end.

(** [min(xs)] and [max(xs)] on a non-empty list: the first element is kept
    until a later one compares strictly below (above) it. *)
Definition py_min (x : float) (xs : list float) : float :=
  fold_left (fun cur y => if PyFloat.ltb y cur then y else cur) xs x.

Definition py_max (x : float) (xs : list float) : float :=
  fold_left (fun cur y => if PyFloat.ltb cur y then y else cur) xs x.

(** [a / n] with [n] a positive [int] (a list length): a float is divided
    by [float(n)]; an [int] gives the correctly rounded quotient. *)
Definition py_truediv (a : number) (n : Z) : number :=
  match a with
  | PyFloatV x => PyFloatV (PyFloat.div_int x n)
  | PyInt Z0 => PyFloatV PyFloat.zero
  | PyInt (Z.pos p) => PyFloatV (PyFloat.of_ratio false p (Z.to_pos n))
  | PyInt (Z.neg p) => PyFloatV (PyFloat.of_ratio true p (Z.to_pos n))
  end.

(** ** Data model *)

(** A Python [str] is a sequence of Unicode code points; [len] counts them. *)
Definition str := list N.

(** [datetime] values are only stored and copied; a microsecond count stands
    for them. *)
Definition datetime := Z.

(** [class ItemBase(BaseModel)]; [ItemCreate] adds nothing to it. *)
Record ItemBase := {
  nombre : str;
  descripcion : option str;
  precio : PyFloat.float;
  disponible : bool
}.

Definition ItemCreate := ItemBase.

(** [class Item(ItemBase)]: the inherited fields plus [id] and
    [fecha_creacion]. *)
Record Item := {
  base : ItemBase;
  id : Z;
  fecha_creacion : datetime
}.

(** The [Field] constraints of [ItemBase], checked on every request body
    before the handler runs and on every [Item(...)] construction. *)
Definition nombre_ok (s : str) : bool :=
  (1 <=? length s)%nat && (length s <=? 100)%nat.

Definition descripcion_ok (d : option str) : bool :=
  match d with
  | None => true
  | Some s => (length s <=? 500)%nat
  end.

Definition precio_ok (p : PyFloat.float) : bool := PyFloat.ltb PyFloat.zero p.

Definition ItemBase_valid (b : ItemBase) : bool :=
  nombre_ok (nombre b) && descripcion_ok (descripcion b) && precio_ok (precio b).

(** ** The registry state and the handler monad *)

Record db := {
  items_db : list Item;
  next_id : Z
}.

(** What a request can be answered with instead of a result: the 404 the
    handlers raise, the 422 of the validation layer, and the 500 of the
    catch-all [exception_handler], which answers every other exception. *)
Inductive error :=
  | NotFound (item_id : Z)
  | ValidationError
  | InternalError.

Inductive result (A : Type) :=
  | Ok (a : A)
  | Error (e : error).
Arguments Ok {A} a.
Arguments Error {A} e.

(** A handler reads and writes the module-level state and either returns or
    raises; what it wrote before raising stays written. *)
Definition App (A : Type) : Type := db -> result A * db.

Definition ret {A} (a : A) : App A := fun s => (Ok a, s).
Definition raise {A} (e : error) : App A := fun s => (Error e, s).
Definition bind {A B} (m : App A) (k : A -> App B) : App B :=
  fun s =>
    match m s with
    | (Ok a, s') => k a s'
    | (Error e, s') => (Error e, s')
    end.
Definition get_items : App (list Item) := fun s => (Ok (items_db s), s).
Definition set_items (l : list Item) : App unit :=
  fun s => (Ok tt, {| items_db := l; next_id := next_id s |}).
Definition get_next_id : App Z := fun s => (Ok (next_id s), s).
Definition set_next_id (n : Z) : App unit :=
  fun s => (Ok tt, {| items_db := items_db s; next_id := n |}).

Declare Scope app_scope.
Delimit Scope app_scope with app.
Notation "x <- m ;; k" := (bind m (fun x => k))
  (at level 100, m at next level, right associativity) : app_scope.
Notation "m ;;; k" := (bind m (fun _ => k))
  (at level 100, right associativity) : app_scope.
Open Scope app_scope.

(** The 422 answer repeats every rejected input in its detail, and the JSON
    writer refuses a float that is not finite.  Names and descriptions are
    strings; a price is repeated only when it was rejected, so the detail can
    be written unless the rejected price is NaN or an infinity. *)
Definition echo_renders (body : ItemBase) : bool :=
  precio_ok (precio body) || is_finite (precio body).

(** The answer to a body that fails the constraints: 422, or, when writing
    the 422 raises, whatever the catch-all [exception_handler] makes of that
    exception, a 500. *)
Definition rejection (body : ItemBase) : error :=
  if echo_renders body then ValidationError else InternalError.

(** FastAPI parses and validates the body against [ItemCreate] before the
    handler body is entered; a violation never reaches the handler. *)
Definition parse_body (body : ItemBase) : App ItemCreate :=
  if ItemBase_valid body then ret body else raise (rejection body).

(** ** Seed data *)

Definition ascii_str (s : String.string) : str :=
  (fun c => N.of_nat (Ascii.nat_of_ascii c)) <$> String.list_ascii_of_string s.

Definition laptop_hp : ItemBase := {|
  nombre := ascii_str "Laptop HP"%string;
  descripcion := Some (ascii_str "Laptop para trabajo profesional"%string);
  precio := PyFloat.decimal 120050 2;
  disponible := true
|}.

(** "Mouse inalámbrico ergonómico": U+00E1 and U+00F3 are one code point
    each. *)
Definition mouse_logitech : ItemBase := {|
  nombre := ascii_str "Mouse Logitech"%string;
  descripcion := Some (ascii_str "Mouse inal"%string ++ [225%N] ++ ascii_str "mbrico ergon"%string
                         ++ [243%N] ++ ascii_str "mico"%string);
  precio := PyFloat.decimal 4599 2;
  disponible := true
|}.

(** The state after the module is loaded; [t1] and [t2] are what the two
    [datetime.now()] calls returned. *)
Definition seed (t1 t2 : datetime) : db := {|
  items_db := [ {| base := laptop_hp; id := 1; fecha_creacion := t1 |};
                {| base := mouse_logitech; id := 2; fecha_creacion := t2 |} ];
  next_id := 3
|}.

(** ** Handlers

    The handlers are [async def] without any [await]: each runs to its end
    before the next request is served, so a run is a sequence of calls. *)

(** [next((item for item in items_db if item.id == item_id), None)] and its
    [enumerate] variant: the first match with its index. *)
Definition find_by_id (item_id : Z) (l : list Item) : option (nat * Item) :=
  list_find (fun item => id item = item_id) l.

(** The three filtering statements of [obtener_items], applied one after the
    other to the copy of the list; a parameter that is [None] is skipped. *)
Definition price_filter (disp : option bool) (pmin pmax : option PyFloat.float)
  : list Item -> list Item :=
  fun items =>
  let items :=
    match disp with
    | Some d => filter (fun item => Bool.eqb (disponible (base item)) d = true) items
    | None => items
    end in
  let items :=
    match pmin with
    | Some lo => filter (fun item => PyFloat.leb lo (precio (base item)) = true) items
    | None => items
    end in
  match pmax with
  | Some hi => filter (fun item => PyFloat.leb (precio (base item)) hi = true) items
  | None => items
  end.

Definition obtener_items (disp : option bool) (precio_min precio_max : option PyFloat.float)
  : App (list Item) :=
  items <- get_items ;;
  ret (price_filter disp precio_min precio_max items).

Definition obtener_item (item_id : Z) : App Item :=
  items <- get_items ;;
  match find_by_id item_id items with
  | None => raise (NotFound item_id)
  | Some (_, item) => ret item
  end.

Definition crear_item (body : ItemBase) (now : datetime) : App Item :=
  item <- parse_body body ;;
  n <- get_next_id ;;
  let nuevo_item := {|
    base := {| nombre := nombre item;
               descripcion := descripcion item;
               precio := precio item;
               disponible := disponible item |};
    id := n;
    fecha_creacion := now |} in
  items <- get_items ;;
  set_items (items ++ [nuevo_item]) ;;;
  n <- get_next_id ;;
  set_next_id (n + 1) ;;;
  ret nuevo_item.

Definition actualizar_item (item_id : Z) (body : ItemBase) : App Item :=
  item_actualizado <- parse_body body ;;
  items <- get_items ;;
  match find_by_id item_id items with
  | None => raise (NotFound item_id)
  | Some (item_index, old) =>
      let item_modificado := {|
        base := {| nombre := nombre item_actualizado;
                   descripcion := descripcion item_actualizado;
                   precio := precio item_actualizado;
                   disponible := disponible item_actualizado |};
        id := item_id;
        fecha_creacion := fecha_creacion old |} in
      set_items (<[item_index := item_modificado]> items) ;;;
      ret item_modificado
  end.

(** [item.disponible = disponible] writes through the reference held by the
    list.  Every cell of [items_db] holds an object of its own (each is built
    by a separate [Item(...)] call), so the write shows in exactly the cell
    where the search found it. *)
Definition actualizar_disponibilidad (item_id : Z) (disp : bool) : App Item :=
  items <- get_items ;;
  match find_by_id item_id items with
  | None => raise (NotFound item_id)
  | Some (k, item) =>
      let item' := {|
        base := {| nombre := nombre (base item);
                   descripcion := descripcion (base item);
                   precio := precio (base item);
                   disponible := disp |};
        id := id item;
        fecha_creacion := fecha_creacion item |} in
      set_items (<[k := item']> items) ;;;
      ret item'
  end.

Definition eliminar_item (item_id : Z) : App unit :=
  items <- get_items ;;
  match find_by_id item_id items with
  | None => raise (NotFound item_id)
  | Some (item_index, _) => set_items (delete item_index items)
  end.

Record Stats := {
  total_items : Z;
  items_disponibles : Z;
  items_no_disponibles : Z;
  precio_promedio : number;
  precio_minimo : number;
  precio_maximo : number
}.

Definition len {A} (l : list A) : Z := Z.of_nat (length l).

Definition estadisticas (alg : sum_algorithm) (items : list Item) : Stats :=
  let total := len items in
  let disponibles := len (filter (fun item => disponible (base item) = true) items) in
  let no_disponibles := total - disponibles in
  let precios := (fun item => precio (base item)) <$> items in
  let promedio :=
    match precios with
    | [] => PyInt 0
    | _ => py_truediv (py_sum alg precios) (len precios)
    end in
  let minimo :=
    match precios with
    | [] => PyInt 0
    | p :: ps => PyFloatV (py_min p ps)
    end in
  let maximo :=
    match precios with
    | [] => PyInt 0
    | p :: ps => PyFloatV (py_max p ps)
    end in
  {| total_items := total;
     items_disponibles := disponibles;
     items_no_disponibles := no_disponibles;
     precio_promedio := py_round2 promedio;
     precio_minimo := minimo;
     precio_maximo := maximo |}.

Definition obtener_estadisticas (alg : sum_algorithm) : App Stats :=
  items <- get_items ;;
  ret (estadisticas alg items).

(** ** Requests and runs

    A run of the service is a sequence of requests answered one after the
    other, each on the state the previous one left. *)

Inductive request :=
  | GetItems (disp : option bool) (precio_min precio_max : option PyFloat.float)
  | GetItem (item_id : Z)
  | PostItem (body : ItemBase) (now : datetime)
  | PutItem (item_id : Z) (body : ItemBase)
  | PatchDisponibilidad (item_id : Z) (disp : bool)
  | DeleteItem (item_id : Z)
  | GetStats.

Inductive response :=
  | RItems (l : list Item)
  | RItem (item : Item)
  | RDeleted
  | RStats (st : Stats)
  | RError (e : error).

Definition respond {A} (f : A -> response) (r : result A * db) : response * db :=
  match r with
  | (Ok a, s) => (f a, s)
  | (Error e, s) => (RError e, s)
  end.

(** The dict [obtener_estadisticas] returns is written as JSON as it is; the
    writer raises on a float that is not finite, and the catch-all
    [exception_handler] answers that with a 500. *)
Definition number_finite (v : number) : bool :=
  match v with
  | PyInt _ => true
  | PyFloatV x => is_finite x
  end.

Definition stats_render (st : Stats) : bool :=
  number_finite (precio_promedio st)
  && number_finite (precio_minimo st)
  && number_finite (precio_maximo st).

Definition render_stats (r : result Stats * db) : result Stats * db :=
  match r with
  | (Ok st, s) => if stats_render st then (Ok st, s) else (Error InternalError, s)
  | (Error e, s) => (Error e, s)
  end.

(** [handle] answers a request whose path and query parameters have been
    converted to their declared types; [serve] below starts from the
    parameters as they arrive. *)
Definition handle (alg : sum_algorithm) (r : request) (s : db) : response * db :=
  match r with
  | GetItems d lo hi => respond RItems (obtener_items d lo hi s)
  | GetItem i => respond RItem (obtener_item i s)
  | PostItem body now => respond RItem (crear_item body now s)
  | PutItem i body => respond RItem (actualizar_item i body s)
  | PatchDisponibilidad i d => respond RItem (actualizar_disponibilidad i d s)
  | DeleteItem i => respond (fun _ => RDeleted) (eliminar_item i s)
  | GetStats => respond RStats (render_stats (obtener_estadisticas alg s))
  end.

Fixpoint trace (alg : sum_algorithm) (reqs : list request) (s : db)
  : list (request * response) * db :=
  match reqs with
  | [] => ([], s)
  | r :: rest =>
      let '(resp, s') := handle alg r s in
      let '(tr, s'') := trace alg rest s' in
      ((r, resp) :: tr, s'')
  end.

(** The id a request/response pair assigned, if it is a successful create. *)
Definition assigned (e : request * response) : option Z :=
  match e with
  | (PostItem _ _, RItem item) => Some (id item)
  | _ => None
  end.

Definition assigned_ids (tr : list (request * response)) : list Z :=
  omap assigned tr.

(** ** The registry invariant: stored ids are pairwise distinct and below the
    counter. *)

Definition ids (s : db) : list Z := id <$> items_db s.

Definition ids_unique (s : db) : Prop := NoDup (ids s).

Definition ids_below (s : db) : Prop :=
  Forall (fun item => id item < next_id s) (items_db s).

Definition registry_inv (s : db) : Prop := ids_unique s /\ ids_below s.

(** The claim's filter predicate, as its words put it: every given parameter
    must hold of the item, an absent one asks nothing. *)
Definition satisfies (disp : option bool) (pmin pmax : option PyFloat.float)
  (item : Item) : Prop :=
  (forall d, disp = Some d -> disponible (base item) = d) /\
  (forall lo, pmin = Some lo -> PyFloat.leb lo (precio (base item)) = true) /\
  (forall hi, pmax = Some hi -> PyFloat.leb (precio (base item)) hi = true).

Definition satisfiesb (disp : option bool) (pmin pmax : option PyFloat.float)
  (item : Item) : bool :=
  match disp with Some d => Bool.eqb (disponible (base item)) d | None => true end
  && match pmin with Some lo => PyFloat.leb lo (precio (base item)) | None => true end
  && match pmax with Some hi => PyFloat.leb (precio (base item)) hi | None => true end.

(** What makes a body fail validation, in the claim's words. *)
Definition violates (b : ItemBase) : Prop :=
  length (nombre b) = 0%nat \/
  (100 < length (nombre b))%nat \/
  (exists d, descripcion b = Some d /\ (500 < length d)%nat) \/
  PyFloat.ltb PyFloat.zero (precio b) = false.

(** ** Further state predicates *)

(** Every stored item meets the [Field] constraints of [ItemBase]. *)
Definition items_valid (s : db) : Prop :=
  Forall (fun item => ItemBase_valid (base item) = true) (items_db s).

(** Stored ids increase along the sequence. *)
Definition ids_sorted (s : db) : Prop := StronglySorted Z.lt (ids s).

Definition is_nan (x : PyFloat.float) : bool :=
  match x with S754_nan => true | _ => false end.

(** The price column the statistics handler works on. *)
Definition precios (items : list Item) : list PyFloat.float :=
  (fun item => precio (base item)) <$> items.

(** Whether a request/response pair is a create that succeeded. *)
Definition created (e : request * response) : bool :=
  match assigned e with Some _ => true | None => false end.

(** The id a request is addressed to: the path parameter of a write, the
    counter's value for a create, none for a read. *)
Definition target (r : request) (s : db) : option Z :=
  match r with
  | PostItem _ _ => Some (next_id s)
  | PutItem i _ | PatchDisponibilidad i _ | DeleteItem i => Some i
  | GetItems _ _ _ | GetItem _ | GetStats => None
  end.

(** ** Requests as they arrive

    A path or query parameter either converts to its declared type or does
    not: [item_id] must be an integer, [disponible] of the patch is required
    and must be a boolean, the three filters of the listing are optional
    ([Given None] when absent) and must convert when present.  The body is
    taken to be a JSON object with the four fields of [ItemBase] in their
    types. *)
Inductive param (A : Type) :=
  | Given (a : A)
  | Malformed.
Arguments Given {A} a.
Arguments Malformed {A}.

Inductive raw_request :=
  | RawGetItems (disp : param (option bool))
                (precio_min precio_max : param (option PyFloat.float))
  | RawGetItem (item_id : param Z)
  | RawPostItem (body : ItemBase) (now : datetime)
  | RawPutItem (item_id : param Z) (body : ItemBase)
  | RawPatchDisponibilidad (item_id : param Z) (disp : param bool)
  | RawDeleteItem (item_id : param Z)
  | RawGetStats.

(** The request the handler is called with, when every parameter converts. *)
Definition convert (r : raw_request) : option request :=
  match r with
  | RawGetItems (Given d) (Given lo) (Given hi) => Some (GetItems d lo hi)
  | RawGetItem (Given i) => Some (GetItem i)
  | RawPostItem body now => Some (PostItem body now)
  | RawPutItem (Given i) body => Some (PutItem i body)
  | RawPatchDisponibilidad (Given i) (Given d) => Some (PatchDisponibilidad i d)
  | RawDeleteItem (Given i) => Some (DeleteItem i)
  | RawGetStats => Some GetStats
  | _ => None
  end.

(** A converted request, seen again as it arrived. *)
Definition embed (req : request) : raw_request :=
  match req with
  | GetItems d lo hi => RawGetItems (Given d) (Given lo) (Given hi)
  | GetItem i => RawGetItem (Given i)
  | PostItem body now => RawPostItem body now
  | PutItem i body => RawPutItem (Given i) body
  | PatchDisponibilidad i d => RawPatchDisponibilidad (Given i) (Given d)
  | DeleteItem i => RawDeleteItem (Given i)
  | GetStats => RawGetStats
  end.

Definition raw_body (r : raw_request) : option ItemBase :=
  match r with
  | RawPostItem body _ | RawPutItem _ body => Some body
  | _ => None
  end.

(** The answer when a parameter does not convert.  The errors of the
    parameters and of the body are reported together, so the 422 of an
    update with a malformed id still repeats a rejected price. *)
Definition malformed_answer (r : raw_request) : error :=
  match raw_body r with
  | Some body => if ItemBase_valid body then ValidationError else rejection body
  | None => ValidationError
  end.

Definition serve (alg : sum_algorithm) (r : raw_request) (s : db) : response * db :=
  match convert r with
  | Some req => handle alg req s
  | None => (RError (malformed_answer r), s)
  end.

(** ** Sample data for the worked examples *)

Definition cable_usb : ItemBase := {|
  nombre := ascii_str "Cable USB"%string;
  descripcion := None;
  precio := PyFloat.decimal 999 2;
  disponible := false
|}.

Definition with_precio (p : PyFloat.float) (b : ItemBase) : ItemBase := {|
  nombre := nombre b;
  descripcion := descripcion b;
  precio := p;
  disponible := disponible b
|}.

Definition with_nombre (n : str) (b : ItemBase) : ItemBase := {|
  nombre := n;
  descripcion := descripcion b;
  precio := precio b;
  disponible := disponible b
|}.

Definition laptop (t : datetime) : Item :=
  {| base := laptop_hp; id := 1; fecha_creacion := t |}.

Definition mouse (t : datetime) : Item :=
  {| base := mouse_logitech; id := 2; fecha_creacion := t |}.

(** Create, delete what was created, create again, look the deleted id up. *)
Definition sample_run : list request :=
  [ PostItem cable_usb 10; DeleteItem 3; PostItem cable_usb 11; GetItem 3 ].

(** * Lemmas *)

Ltac run_app :=
  unfold obtener_items, obtener_item, crear_item, actualizar_item,
    actualizar_disponibilidad, eliminar_item, obtener_estadisticas,
    parse_body, bind, ret, raise, get_items, set_items, get_next_id,
    set_next_id in *; simpl in *.

(** ** The float model on known values *)

Section FloatModel.

(** [1200.50] and [623.25] are exactly representable, [45.99] is not. *)
Example decimal_1200_50 :
  PyFloat.decimal 120050 2 = S754_finite false 5279854836580352 (-42).
Proof. reflexivity. Qed.

Example decimal_623_25 :
  PyFloat.decimal 62325 2 = S754_finite false 5482164976091136 (-43).
Proof. reflexivity. Qed.

Example decimal_45_99 :
  PyFloat.decimal 4599 2 = S754_finite false 6472517089461535 (-47).
Proof. reflexivity. Qed.

(** [round(2.675, 2) == 2.67]: the double nearest to 2.675 lies below it. *)
Example round2_2_675 :
  PyFloat.round2 (PyFloat.decimal 2675 3) = PyFloat.decimal 267 2.
Proof. reflexivity. Qed.

(** [round(0.125, 2) == 0.12]: an exact tie goes to the even digit. *)
Example round2_0_125 :
  PyFloat.round2 (PyFloat.decimal 125 3) = PyFloat.decimal 12 2.
Proof. reflexivity. Qed.

(** [round(-0.001, 2) == -0.0]: the sign survives. *)
Example round2_neg_small :
  PyFloat.round2 (PyFloat.decimal (-1) 3) = S754_zero true.
Proof. reflexivity. Qed.

(** The unrounded mean of the seed prices lies strictly between 623.245 and
    623.25: [m * 2^-43] with [623245 * 2^43 < 1000 * m]. *)
Example seed_mean :
  PyFloat.div_int (PyFloat.add (PyFloat.decimal 120050 2) (PyFloat.decimal 4599 2)) 2
    = S754_finite false 5482120995626025 (-43) /\
  623245 * 2 ^ 43 < 1000 * 5482120995626025 /\
  100 * 5482120995626025 < 62325 * 2 ^ 43.
Proof. split; [reflexivity|]. split; reflexivity. Qed.

(** On the seed prices the compensation term of the newer [sum] is below
    half an ulp of the plain sum and changes nothing. *)
Example sums_agree_on_seed :
  compensated_sum [PyFloat.decimal 120050 2; PyFloat.decimal 4599 2]
    = plain_sum [PyFloat.decimal 120050 2; PyFloat.decimal 4599 2].
Proof. reflexivity. Qed.

End FloatModel.

Section FindById.

Lemma find_by_id_Some (i : Z) (l : list Item) (k : nat) (item : Item) :
  find_by_id i l = Some (k, item) ->
  l !! k = Some item /\ id item = i /\
  forall j other, l !! j = Some other -> (j < k)%nat -> id other <> i.
Proof. unfold find_by_id. intros H. by apply list_find_Some in H. Qed.

Lemma find_by_id_None (i : Z) (l : list Item) :
  find_by_id i l = None <-> forall item, item ∈ l -> id item <> i.
Proof.
  unfold find_by_id. rewrite list_find_None, Forall_forall. done.
Qed.

Lemma find_by_id_elem_of (i : Z) (l : list Item) (item : Item) :
  item ∈ l -> id item = i -> exists k first, find_by_id i l = Some (k, first).
Proof.
  intros Hin Hid. destruct (find_by_id i l) as [[k first]|] eqn:E; eauto.
  rewrite find_by_id_None in E. by destruct (E item).
Qed.

(** With pairwise distinct ids the first match is the only one. *)
Lemma find_by_id_unique (i : Z) (l : list Item) (item : Item) :
  NoDup (id <$> l) -> item ∈ l -> id item = i ->
  exists k, find_by_id i l = Some (k, item) /\ l !! k = Some item.
Proof.
  intros Hnd Hin Hid.
  destruct (find_by_id_elem_of i l item Hin Hid) as (k & first & Hf).
  destruct (find_by_id_Some _ _ _ _ Hf) as (Hk & Hfid & _).
  apply list_elem_of_lookup_1 in Hin as [j Hj].
  assert (j = k) as ->.
  { eapply (NoDup_lookup (id <$> l) j k (id item)); [done| |].
    - by rewrite list_lookup_fmap, Hj.
    - rewrite list_lookup_fmap, Hk. simpl. congruence. }
  exists k. split; congruence.
Qed.

Lemma ids_insert_same (l : list Item) (k : nat) (old new : Item) :
  l !! k = Some old -> id new = id old ->
  id <$> <[k := new]> l = id <$> l.
Proof.
  intros Hk Hid. rewrite list_fmap_insert. apply list_insert_id.
  by rewrite list_lookup_fmap, Hk, Hid.
Qed.

End FindById.

(** ** What each handler computes *)

Section Handlers.

Implicit Types (s : db) (i : Z) (body : ItemBase) (item : Item).

Lemma ItemBase_eta body :
  {| nombre := nombre body; descripcion := descripcion body;
     precio := precio body; disponible := disponible body |} = body.
Proof. by destruct body. Qed.

Lemma obtener_item_eq i s :
  obtener_item i s =
    (match find_by_id i (items_db s) with
     | Some (_, item) => Ok item
     | None => Error (NotFound i)
     end, s).
Proof. run_app. by destruct (find_by_id i (items_db s)) as [[]|]. Qed.

Lemma crear_item_valid body now s :
  ItemBase_valid body = true ->
  let nuevo := {| base := body; id := next_id s; fecha_creacion := now |} in
  crear_item body now s =
    (Ok nuevo, {| items_db := items_db s ++ [nuevo]; next_id := next_id s + 1 |}).
Proof. intros Hv. run_app. rewrite Hv. simpl. by rewrite ItemBase_eta. Qed.

Lemma crear_item_invalid body now s :
  ItemBase_valid body = false ->
  crear_item body now s = (Error (rejection body), s).
Proof. intros Hv. run_app. by rewrite Hv. Qed.

Lemma actualizar_item_invalid i body s :
  ItemBase_valid body = false ->
  actualizar_item i body s = (Error (rejection body), s).
Proof. intros Hv. run_app. by rewrite Hv. Qed.

Lemma actualizar_item_found i body s k old :
  ItemBase_valid body = true ->
  find_by_id i (items_db s) = Some (k, old) ->
  let nuevo := {| base := body; id := i; fecha_creacion := fecha_creacion old |} in
  actualizar_item i body s =
    (Ok nuevo, {| items_db := <[k := nuevo]> (items_db s); next_id := next_id s |}).
Proof. intros Hv Hf. run_app. rewrite Hv. simpl. rewrite Hf. simpl. by rewrite ItemBase_eta. Qed.

Lemma actualizar_item_missing i body s :
  ItemBase_valid body = true ->
  find_by_id i (items_db s) = None ->
  actualizar_item i body s = (Error (NotFound i), s).
Proof. intros Hv Hf. run_app. rewrite Hv. simpl. by rewrite Hf. Qed.

Lemma actualizar_disponibilidad_found i d s k old :
  find_by_id i (items_db s) = Some (k, old) ->
  let nuevo := {| base := {| nombre := nombre (base old);
                             descripcion := descripcion (base old);
                             precio := precio (base old);
                             disponible := d |};
                  id := id old; fecha_creacion := fecha_creacion old |} in
  actualizar_disponibilidad i d s =
    (Ok nuevo, {| items_db := <[k := nuevo]> (items_db s); next_id := next_id s |}).
Proof. intros Hf. run_app. by rewrite Hf. Qed.

Lemma actualizar_disponibilidad_missing i d s :
  find_by_id i (items_db s) = None ->
  actualizar_disponibilidad i d s = (Error (NotFound i), s).
Proof. intros Hf. run_app. by rewrite Hf. Qed.

Lemma eliminar_item_found i s k old :
  find_by_id i (items_db s) = Some (k, old) ->
  eliminar_item i s =
    (Ok tt, {| items_db := delete k (items_db s); next_id := next_id s |}).
Proof. intros Hf. run_app. by rewrite Hf. Qed.

Lemma eliminar_item_missing i s :
  find_by_id i (items_db s) = None ->
  eliminar_item i s = (Error (NotFound i), s).
Proof. intros Hf. run_app. by rewrite Hf. Qed.

Lemma ItemBase_valid_false body :
  ItemBase_valid body = false <-> violates body.
Proof.
  unfold ItemBase_valid, violates, nombre_ok, descripcion_ok, precio_ok.
  destruct body as [n d p a]; cbn [nombre descripcion precio].
  rewrite !andb_false_iff, !Nat.leb_gt. split.
  - intros [[[H|H]|H]|H].
    + left. lia.
    + right. left. lia.
    + right. right. left. destruct d as [d|]; [|done].
      apply Nat.leb_gt in H. eauto.
    + by repeat right.
  - intros [H|[H|[(d' & -> & H)|H]]].
    + left. left. left. lia.
    + left. left. right. lia.
    + left. right. by apply Nat.leb_gt.
    + by right.
Qed.

Lemma respond_snd {A} (f : A -> response) (r : result A * db) :
  (respond f r).2 = r.2.
Proof. by destruct r as [[a|e] s]. Qed.

Lemma render_stats_snd (r : result Stats * db) : (render_stats r).2 = r.2.
Proof. destruct r as [[st|e] s]; simpl; [|done]. by destruct (stats_render st). Qed.

End Handlers.

(** ** The invariant along a run *)

Section Invariant.

Variable alg : sum_algorithm.

Lemma seed_inv t1 t2 : registry_inv (seed t1 t2).
Proof.
  split.
  - unfold ids_unique, ids. simpl. by apply (bool_decide_unpack _).
  - unfold ids_below. simpl. repeat constructor; simpl; lia.
Qed.

Lemma crear_item_inv body now s :
  registry_inv s -> registry_inv (crear_item body now s).2.
Proof.
  intros [Hu Hb]. destruct (ItemBase_valid body) eqn:Hv.
  - rewrite (crear_item_valid _ _ _ Hv). simpl. split.
    + unfold ids_unique, ids in *. simpl. rewrite fmap_app. simpl.
      apply NoDup_app. split_and!; [done| |apply NoDup_singleton].
      intros x Hx Hx'. apply list_elem_of_singleton in Hx'. subst x.
      apply list_elem_of_fmap in Hx as (it & Hid & Hin).
      unfold ids_below in Hb. rewrite Forall_forall in Hb.
      specialize (Hb it Hin). lia.
    + unfold ids_below in *. simpl. apply Forall_app. split.
      * eapply Forall_impl; [exact Hb|]. simpl. intros; lia.
      * constructor; [simpl; lia|constructor].
  - by rewrite (crear_item_invalid _ _ _ Hv).
Qed.

Lemma replace_inv s k old nuevo :
  registry_inv s -> items_db s !! k = Some old -> id nuevo = id old ->
  registry_inv {| items_db := <[k := nuevo]> (items_db s); next_id := next_id s |}.
Proof.
  intros [Hu Hb] Hk Hid. split.
  - unfold ids_unique, ids in *. simpl. by rewrite (ids_insert_same _ _ old).
  - unfold ids_below in *. simpl. apply Forall_insert; [done|].
    rewrite Hid. rewrite Forall_forall in Hb. apply Hb.
    by eapply list_elem_of_lookup_2.
Qed.

Lemma actualizar_item_inv i body s :
  registry_inv s -> registry_inv (actualizar_item i body s).2.
Proof.
  intros Hinv. destruct (ItemBase_valid body) eqn:Hv.
  - destruct (find_by_id i (items_db s)) as [[k old]|] eqn:Hf.
    + rewrite (actualizar_item_found _ _ _ _ _ Hv Hf). simpl.
      destruct (find_by_id_Some _ _ _ _ Hf) as (Hk & Hid & _).
      by apply (replace_inv s k old).
    + by rewrite (actualizar_item_missing _ _ _ Hv Hf).
  - by rewrite (actualizar_item_invalid _ _ _ Hv).
Qed.

Lemma actualizar_disponibilidad_inv i d s :
  registry_inv s -> registry_inv (actualizar_disponibilidad i d s).2.
Proof.
  intros Hinv. destruct (find_by_id i (items_db s)) as [[k old]|] eqn:Hf.
  - rewrite (actualizar_disponibilidad_found _ _ _ _ _ Hf). simpl.
    destruct (find_by_id_Some _ _ _ _ Hf) as (Hk & Hid & _).
    by apply (replace_inv s k old).
  - by rewrite (actualizar_disponibilidad_missing _ _ _ Hf).
Qed.

Lemma eliminar_item_inv i s :
  registry_inv s -> registry_inv (eliminar_item i s).2.
Proof.
  intros [Hu Hb]. destruct (find_by_id i (items_db s)) as [[k old]|] eqn:Hf.
  - rewrite (eliminar_item_found _ _ _ _ Hf). simpl. split.
    + unfold ids_unique, ids in *. simpl. rewrite list_fmap_delete.
      apply (sublist_NoDup _ _ Hu), sublist_delete.
    + unfold ids_below in *. simpl. by apply Forall_delete.
  - by rewrite (eliminar_item_missing _ _ Hf).
Qed.

Lemma handle_inv r s : registry_inv s -> registry_inv (handle alg r s).2.
Proof.
  intros Hinv. destruct r as [d lo hi|i|body now|i body|i d|i|];
    cbn [handle]; rewrite respond_snd, ?render_stats_snd.
  - done.
  - by rewrite obtener_item_eq.
  - by apply crear_item_inv.
  - by apply actualizar_item_inv.
  - by apply actualizar_disponibilidad_inv.
  - by apply eliminar_item_inv.
  - done.
Qed.

End Invariant.

(** ** Ids handed out along a run *)

Section Runs.

Variable alg : sum_algorithm.

Lemma trace_cons r rest s :
  trace alg (r :: rest) s =
    ((r, (handle alg r s).1) :: (trace alg rest (handle alg r s).2).1,
     (trace alg rest (handle alg r s).2).2).
Proof.
  simpl. destruct (handle alg r s) as [resp s']. simpl.
  by destruct (trace alg rest s') as [tr s''].
Qed.

(** The counter never decreases. *)
Lemma handle_next_id r s : next_id s <= next_id (handle alg r s).2.
Proof.
  destruct r as [d lo hi|i|body now|i body|i d|i|];
    cbn [handle]; rewrite respond_snd, ?render_stats_snd.
  - simpl. lia.
  - rewrite obtener_item_eq. simpl. lia.
  - destruct (ItemBase_valid body) eqn:Hv.
    + rewrite (crear_item_valid _ _ _ Hv). simpl. lia.
    + rewrite (crear_item_invalid _ _ _ Hv). simpl. lia.
  - destruct (ItemBase_valid body) eqn:Hv.
    + destruct (find_by_id i (items_db s)) as [[k old]|] eqn:Hf.
      * rewrite (actualizar_item_found _ _ _ _ _ Hv Hf). simpl. lia.
      * rewrite (actualizar_item_missing _ _ _ Hv Hf). simpl. lia.
    + rewrite (actualizar_item_invalid _ _ _ Hv). simpl. lia.
  - destruct (find_by_id i (items_db s)) as [[k old]|] eqn:Hf.
    + rewrite (actualizar_disponibilidad_found _ _ _ _ _ Hf). simpl. lia.
    + rewrite (actualizar_disponibilidad_missing _ _ _ Hf). simpl. lia.
  - destruct (find_by_id i (items_db s)) as [[k old]|] eqn:Hf.
    + rewrite (eliminar_item_found _ _ _ _ Hf). simpl. lia.
    + rewrite (eliminar_item_missing _ _ Hf). simpl. lia.
  - simpl. lia.
Qed.

(** A successful create hands out the counter's value and moves the
    counter past it. *)
Lemma handle_assigned r s x :
  assigned (r, (handle alg r s).1) = Some x ->
  x = next_id s /\ next_id (handle alg r s).2 = x + 1.
Proof.
  destruct r as [d lo hi|i|body now|i body|i d|i|]; try done.
  cbn [handle]. destruct (ItemBase_valid body) eqn:Hv.
  - rewrite (crear_item_valid _ _ _ Hv). simpl. intros [= <-]. done.
  - rewrite (crear_item_invalid _ _ _ Hv). simpl. done.
Qed.

(** A delete that succeeds removed an id that was stored. *)
Lemma handle_delete_ok i s :
  (handle alg (DeleteItem i) s).1 = RDeleted ->
  exists item, item ∈ items_db s /\ id item = i.
Proof.
  cbn [handle]. destruct (find_by_id i (items_db s)) as [[k old]|] eqn:Hf.
  - intros _. destruct (find_by_id_Some _ _ _ _ Hf) as (Hk & Hid & _).
    exists old. split; [by eapply list_elem_of_lookup_2|done].
  - by rewrite (eliminar_item_missing _ _ Hf).
Qed.

Lemma assigned_ids_cons e tr :
  assigned_ids (e :: tr) =
    match assigned e with
    | Some x => x :: assigned_ids tr
    | None => assigned_ids tr
    end.
Proof. done. Qed.

(** Ids handed out from a state on are at least its counter and strictly
    increase. *)
Lemma trace_assigned reqs : forall s,
  Forall (fun x => next_id s <= x) (assigned_ids (trace alg reqs s).1) /\
  StronglySorted Z.lt (assigned_ids (trace alg reqs s).1).
Proof.
  induction reqs as [|r rest IH]; intros s.
  - simpl. split; constructor.
  - rewrite trace_cons. cbn [fst]. rewrite assigned_ids_cons.
    destruct (IH (handle alg r s).2) as [IHge IHsorted].
    pose proof (handle_next_id r s) as Hmono.
    destruct (assigned (r, (handle alg r s).1)) as [x|] eqn:Hx.
    + apply handle_assigned in Hx as [-> Hnext]. split.
      * constructor; [lia|]. eapply Forall_impl; [exact IHge|].
        simpl. intros; lia.
      * constructor; [done|]. eapply Forall_impl; [exact IHge|].
        simpl. intros; lia.
    + split; [|done]. eapply Forall_impl; [exact IHge|]. simpl. intros; lia.
Qed.

Lemma trace_inv reqs : forall s,
  registry_inv s -> registry_inv (trace alg reqs s).2.
Proof.
  induction reqs as [|r rest IH]; intros s Hinv; [done|].
  rewrite trace_cons. cbn [snd]. by apply IH, handle_inv.
Qed.

(** Every state the service reaches from the seed has pairwise distinct
    ids, all below the counter. *)
Lemma reachable_inv t1 t2 reqs :
  registry_inv (trace alg reqs (seed t1 t2)).2.
Proof. apply trace_inv, seed_inv. Qed.

(** Once a delete has succeeded, no later create returns the deleted id. *)
Lemma trace_deleted_fresh reqs : forall s tr1 i tr2,
  registry_inv s ->
  (trace alg reqs s).1 = tr1 ++ (DeleteItem i, RDeleted) :: tr2 ->
  i ∉ assigned_ids tr2.
Proof.
  induction reqs as [|r rest IH]; intros s tr1 i tr2 Hinv Htr.
  - simpl in Htr. by destruct tr1.
  - rewrite trace_cons in Htr. cbn [fst] in Htr.
    destruct tr1 as [|e tr1]; simpl in Htr.
    + injection Htr as -> Hresp <-.
      apply handle_delete_ok in Hresp as (item & Hin & <-).
      destruct Hinv as [_ Hb]. unfold ids_below in Hb.
      rewrite Forall_forall in Hb. specialize (Hb item Hin).
      pose proof (handle_next_id (DeleteItem (id item)) s) as Hmono.
      destruct (trace_assigned rest (handle alg (DeleteItem (id item)) s).2)
        as [Hge _].
      rewrite Forall_forall in Hge. intros Hmem.
      specialize (Hge _ Hmem). lia.
    + injection Htr as _ Htr.
      eapply IH; [|exact Htr]. by apply handle_inv.
Qed.

End Runs.

(** ** Searching after a write *)

Section AfterWrite.

Implicit Types (s : db) (i : Z) (item : Item) (l : list Item).

(** Overwriting the found cell with an item of the same id keeps it the
    first match. *)
Lemma find_by_id_insert i l k old nuevo :
  find_by_id i l = Some (k, old) -> id nuevo = i ->
  find_by_id i (<[k := nuevo]> l) = Some (k, nuevo).
Proof.
  intros Hf Hid. destruct (find_by_id_Some _ _ _ _ Hf) as (Hk & _ & Hfirst).
  unfold find_by_id. apply list_find_Some. split_and!.
  - apply list_lookup_insert_eq. by eapply lookup_lt_Some.
  - done.
  - intros j other Hj Hlt. rewrite list_lookup_insert_ne in Hj by lia.
    by eapply Hfirst.
Qed.

Lemma split_at l k item :
  l !! k = Some item ->
  l = take k l ++ item :: drop (S k) l /\
  delete k l = take k l ++ drop (S k) l.
Proof.
  intros Hk. split.
  - symmetry. by apply take_drop_middle.
  - apply delete_take_drop.
Qed.

(** With pairwise distinct ids, taking one item out leaves none with its
    id. *)
Lemma find_by_id_removed l1 l2 item :
  NoDup (id <$> (l1 ++ item :: l2)) ->
  find_by_id (id item) (l1 ++ l2) = None.
Proof.
  rewrite fmap_app, fmap_cons. intros Hnd.
  apply NoDup_app in Hnd as (_ & Hl1 & Hnd).
  apply NoDup_cons in Hnd as [Hl2 _].
  apply find_by_id_None. intros other Hin Hid.
  apply elem_of_app in Hin as [Hin|Hin].
  - apply (Hl1 (id item)).
    + rewrite <- Hid. by apply list_elem_of_fmap_2.
    + left.
  - apply Hl2. rewrite <- Hid. by apply list_elem_of_fmap_2.
Qed.

Lemma satisfiesb_spec disp pmin pmax item :
  satisfiesb disp pmin pmax item = true <-> satisfies disp pmin pmax item.
Proof.
  unfold satisfiesb, satisfies. rewrite !andb_true_iff. split.
  - intros [[Hd Hlo] Hhi]. split_and!.
    + intros d ->. by apply eqb_prop.
    + by intros lo ->.
    + by intros hi ->.
  - intros (Hd & Hlo & Hhi). split_and!.
    + destruct disp as [d|]; [|done]. rewrite (Hd d eq_refl). apply eqb_reflx.
    + destruct pmin as [lo|]; [|done]. by apply Hlo.
    + destruct pmax as [hi|]; [|done]. by apply Hhi.
Qed.

(** The three successive comprehensions keep what one pass with the
    conjunction keeps. *)
Lemma price_filter_eq disp pmin pmax l :
  price_filter disp pmin pmax l =
    filter (fun item => satisfiesb disp pmin pmax item = true) l.
Proof.
  unfold price_filter, satisfiesb.
  induction l as [|item l IH].
  - by destruct disp, pmin, pmax.
  - destruct disp as [d|], pmin as [lo|], pmax as [hi|];
      rewrite ?filter_cons in *;
      repeat (case_decide; rewrite ?filter_cons in * );
      repeat match goal with
             | H : _ = true |- _ => rewrite H in *
             | H : _ <> true |- _ => apply not_true_is_false in H; rewrite H in *
             end;
      simpl in *; try done; try (f_equal; done).
Qed.

End AfterWrite.

(** * The claims *)

(** C1. Ids are assigned monotonically.  The seeded state holds ids 1 and 2
    with the counter at 3; along every run from it, the seed ids followed by
    the ids that successful creates returned, in the order they were
    returned, form a strictly increasing sequence (each create returns an id
    above every id assigned before it); and wherever a delete of id [i]
    succeeded in the run, no create answered after it returned [i]. *)
Theorem ids_assigned_monotonically :
  forall (alg : sum_algorithm) (t1 t2 : datetime) (reqs : list request),
    let s0 := seed t1 t2 in
    let tr := (trace alg reqs s0).1 in
    ids s0 = [1; 2] /\ next_id s0 = 3 /\
    StronglySorted Z.lt (ids s0 ++ assigned_ids tr) /\
    (forall tr1 i tr2,
        tr = tr1 ++ (DeleteItem i, RDeleted) :: tr2 -> i ∉ assigned_ids tr2).
Proof.
  intros alg t1 t2 reqs s0 tr. split_and!; [done|done| |].
  - destruct (trace_assigned alg reqs s0) as [Hge Hsorted]. fold tr in Hge, Hsorted.
    change (ids s0) with [1; 2]. simpl.
    change (next_id s0) with 3 in Hge.
    constructor; [constructor; [done|]|].
    + eapply Forall_impl; [exact Hge|]. simpl. intros; lia.
    + constructor; [lia|]. eapply Forall_impl; [exact Hge|]. simpl. intros; lia.
  - intros tr1 i tr2 Htr.
    eapply (trace_deleted_fresh alg reqs s0); [apply seed_inv|exact Htr].
Qed.


(** C2. In a registry with pairwise distinct ids, updating a stored item
    with a valid body keeps the item's id and creation time and sets name,
    description, price and availability to the body's values, whatever the
    old ones were; the new record takes the old one's place and is what a
    later lookup of the id returns. *)
Theorem update_keeps_id_and_created_at :
  forall (s : db) (i : Z) (body : ItemBase) (old : Item),
    ids_unique s -> old ∈ items_db s -> id old = i ->
    ItemBase_valid body = true ->
    exists (k : nat) (nuevo : Item) (s' : db),
      actualizar_item i body s = (Ok nuevo, s') /\
      id nuevo = id old /\
      fecha_creacion nuevo = fecha_creacion old /\
      nombre (base nuevo) = nombre body /\
      descripcion (base nuevo) = descripcion body /\
      precio (base nuevo) = precio body /\
      disponible (base nuevo) = disponible body /\
      items_db s !! k = Some old /\
      items_db s' = <[k := nuevo]> (items_db s) /\
      next_id s' = next_id s /\
      obtener_item i s' = (Ok nuevo, s').
Proof.
  intros s i body old Hu Hin Hid Hv.
  destruct (find_by_id_unique i (items_db s) old Hu Hin Hid) as (k & Hf & Hk).
  eexists k, _, _. split; [by apply (actualizar_item_found i body s k old)|].
  simpl. split_and!; try done.
  rewrite obtener_item_eq. simpl.
  by rewrite (find_by_id_insert i (items_db s) k old).
Qed.

(** C3. On the seeded state (prices 1200.50 and 45.99, both available) the
    statistics are total 2, available 2, unavailable 0, average 623.25,
    minimum 45.99 and maximum 1200.50, each decimal standing for the double
    nearest to it; the average is the mean of the two prices,
    (1200.50 + 45.99) / 2 in binary64, rounded to two decimals.  This holds
    for both summation algorithms and leaves the state as it was. *)
Theorem stats_on_seed :
  forall (alg : sum_algorithm) (t1 t2 : datetime),
    ((fun item => (precio (base item), disponible (base item))) <$> items_db (seed t1 t2))
      = [(PyFloat.decimal 120050 2, true); (PyFloat.decimal 4599 2, true)] /\
    obtener_estadisticas alg (seed t1 t2) =
      (Ok {| total_items := 2;
             items_disponibles := 2;
             items_no_disponibles := 0;
             precio_promedio := PyFloatV (PyFloat.decimal 62325 2);
             precio_minimo := PyFloatV (PyFloat.decimal 4599 2);
             precio_maximo := PyFloatV (PyFloat.decimal 120050 2) |},
       seed t1 t2) /\
    PyFloatV (PyFloat.decimal 62325 2) =
      py_round2 (PyFloatV (PyFloat.div_int
        (PyFloat.add (PyFloat.decimal 120050 2) (PyFloat.decimal 4599 2)) 2)).
Proof.
  intros alg t1 t2. split_and!.
  - reflexivity.
  - destruct alg; vm_compute; reflexivity.
  - vm_compute. reflexivity.
Qed.

(** C4. Listing returns the stored items that satisfy every given filter
    (availability equal to the flag, price at least the minimum, price at
    most the maximum), in the order they are stored, and the whole sequence
    when no filter is given. *)
Theorem list_items_is_conjunctive_filter :
  forall (s : db) (disp : option bool) (pmin pmax : option PyFloat.float),
    obtener_items disp pmin pmax s =
      (Ok (filter (fun item => satisfiesb disp pmin pmax item = true) (items_db s)), s) /\
    (forall item,
        satisfiesb disp pmin pmax item = true <-> satisfies disp pmin pmax item) /\
    (forall item,
        item ∈ filter (fun item => satisfiesb disp pmin pmax item = true) (items_db s)
        <-> item ∈ items_db s /\ satisfies disp pmin pmax item) /\
    filter (fun item => satisfiesb disp pmin pmax item = true) (items_db s)
      `sublist_of` items_db s /\
    obtener_items None None None s = (Ok (items_db s), s).
Proof.
  intros s disp pmin pmax. split_and!.
  - unfold obtener_items, bind, get_items, ret. by rewrite price_filter_eq.
  - intros item. apply satisfiesb_spec.
  - intros item. rewrite list_elem_of_filter, satisfiesb_spec. tauto.
  - apply sublist_filter.
  - reflexivity.
Qed.

(** C5. The claim asks that a body failing validation is answered with a
    validation error and changes nothing.  The code keeps the second half
    and misses the first on two prices: a body whose price is NaN or minus
    infinity violates [gt=0] and is rejected before the handler runs, the
    item sequence and the counter stay as they were, but writing the 422
    raises and the catch-all handler answers with a 500.  This holds in
    every state, for create and for update, whatever the other fields. *)
Theorem nan_price_is_answered_500 :
  forall (s : db) (now : datetime) (i : Z) (b : ItemBase),
    let nan_body := with_precio S754_nan b in
    let neg_inf_body := with_precio (S754_infinity true) b in
    violates nan_body /\ violates neg_inf_body /\
    crear_item nan_body now s = (Error InternalError, s) /\
    actualizar_item i nan_body s = (Error InternalError, s) /\
    crear_item neg_inf_body now s = (Error InternalError, s) /\
    actualizar_item i neg_inf_body s = (Error InternalError, s).
Proof.
  intros s now i b nan_body neg_inf_body.
  assert (violates nan_body) as Hnan by (do 3 right; reflexivity).
  assert (violates neg_inf_body) as Hinf by (do 3 right; reflexivity).
  pose proof (proj2 (ItemBase_valid_false _) Hnan) as Hvn.
  pose proof (proj2 (ItemBase_valid_false _) Hinf) as Hvi.
  split_and!; try done.
  - by rewrite (crear_item_invalid _ _ _ Hvn).
  - by rewrite (actualizar_item_invalid _ _ _ Hvn).
  - by rewrite (crear_item_invalid _ _ _ Hvi).
  - by rewrite (actualizar_item_invalid _ _ _ Hvi).
Qed.

(** C6. Looking an id up fails with not-found exactly when no stored item
    has the id; a successful lookup returns a stored item with that id, and
    in a registry with pairwise distinct ids every stored item is the one
    its id looks up. *)
Theorem get_item_not_found_iff_absent :
  forall (s : db) (i : Z),
    ((obtener_item i s).1 = Error (NotFound i) <->
       forall item, item ∈ items_db s -> id item <> i) /\
    (forall item, (obtener_item i s).1 = Ok item ->
                  item ∈ items_db s /\ id item = i) /\
    (forall item, ids_unique s -> item ∈ items_db s -> id item = i ->
                  obtener_item i s = (Ok item, s)).
Proof.
  intros s i. rewrite obtener_item_eq. cbn [fst]. split_and!.
  - rewrite <- find_by_id_None.
    destruct (find_by_id i (items_db s)) as [[k found]|]; split; done.
  - intros item. destruct (find_by_id i (items_db s)) as [[k found]|] eqn:Hf; [|done].
    intros [= <-]. destruct (find_by_id_Some _ _ _ _ Hf) as (Hk & Hid & _).
    split; [by eapply list_elem_of_lookup_2|done].
  - intros item Hu Hin Hid.
    destruct (find_by_id_unique i (items_db s) item Hu Hin Hid) as (k & -> & _).
    done.
Qed.

(** C7. Deleting an id fails with not-found, leaving the state as it was,
    exactly when no stored item has the id.  In a registry with pairwise
    distinct ids, deleting the id of a stored item succeeds and takes that
    one record out of the sequence, the items before and after it staying in
    place and the counter unchanged, and a lookup of the id fails with
    not-found afterwards. *)
Theorem delete_item_removes_exactly_one :
  forall (s : db) (i : Z),
    ((eliminar_item i s).1 = Error (NotFound i) <->
       forall item, item ∈ items_db s -> id item <> i) /\
    ((forall item, item ∈ items_db s -> id item <> i) ->
       eliminar_item i s = (Error (NotFound i), s)) /\
    (forall item, ids_unique s -> item ∈ items_db s -> id item = i ->
       exists l1 l2 s',
         items_db s = l1 ++ item :: l2 /\
         eliminar_item i s = (Ok tt, s') /\
         items_db s' = l1 ++ l2 /\
         next_id s' = next_id s /\
         obtener_item i s' = (Error (NotFound i), s')).
Proof.
  intros s i. split_and!.
  - rewrite <- find_by_id_None.
    destruct (find_by_id i (items_db s)) as [[k found]|] eqn:Hf.
    + rewrite (eliminar_item_found _ _ _ _ Hf). split; done.
    + by rewrite (eliminar_item_missing _ _ Hf).
  - intros Habs. apply find_by_id_None in Habs. by apply eliminar_item_missing.
  - intros item Hu Hin Hid.
    destruct (find_by_id_unique i (items_db s) item Hu Hin Hid) as (k & Hf & Hk).
    destruct (split_at _ _ _ Hk) as [Hsplit Hdel].
    exists (take k (items_db s)), (drop (S k) (items_db s)),
      {| items_db := delete k (items_db s); next_id := next_id s |}.
    split; [done|]. split; [by apply (eliminar_item_found i s k item)|].
    simpl. split_and!; try done.
    rewrite obtener_item_eq. simpl. rewrite Hdel, <- Hid.
    rewrite find_by_id_removed; [done|].
    rewrite <- Hsplit. exact Hu.
Qed.

(** C8. In a registry with pairwise distinct ids, patching the availability
    of a stored item sets that item's availability to the given value and
    leaves its id, name, description, price and creation time, every other
    cell of the sequence and the counter as they were; when no stored item
    has the id the call fails with not-found and changes nothing. *)
Theorem patch_changes_only_availability :
  forall (s : db) (i : Z) (b : bool),
    (forall old, ids_unique s -> old ∈ items_db s -> id old = i ->
       exists (k : nat) (nuevo : Item) (s' : db),
         actualizar_disponibilidad i b s = (Ok nuevo, s') /\
         disponible (base nuevo) = b /\
         id nuevo = id old /\
         nombre (base nuevo) = nombre (base old) /\
         descripcion (base nuevo) = descripcion (base old) /\
         precio (base nuevo) = precio (base old) /\
         fecha_creacion nuevo = fecha_creacion old /\
         items_db s !! k = Some old /\
         items_db s' !! k = Some nuevo /\
         (forall j, j <> k -> items_db s' !! j = items_db s !! j) /\
         length (items_db s') = length (items_db s) /\
         next_id s' = next_id s) /\
    ((forall item, item ∈ items_db s -> id item <> i) ->
       actualizar_disponibilidad i b s = (Error (NotFound i), s)).
Proof.
  intros s i b. split.
  - intros old Hu Hin Hid.
    destruct (find_by_id_unique i (items_db s) old Hu Hin Hid) as (k & Hf & Hk).
    eexists k, _, _.
    split; [by apply (actualizar_disponibilidad_found i b s k old)|].
    simpl. split_and!; try done.
    + apply list_lookup_insert_eq. by eapply lookup_lt_Some.
    + intros j Hj. by apply list_lookup_insert_ne.
    + apply length_insert.
  - intros Habs. apply find_by_id_None in Habs.
    by apply actualizar_disponibilidad_missing.
Qed.

(** C9. On a registry with no items the statistics are all 0 (the integer),
    not an error, whatever the counter and the summation algorithm. *)
Theorem stats_on_empty :
  forall (alg : sum_algorithm) (n : Z),
    obtener_estadisticas alg {| items_db := []; next_id := n |} =
      (Ok {| total_items := 0;
             items_disponibles := 0;
             items_no_disponibles := 0;
             precio_promedio := PyInt 0;
             precio_minimo := PyInt 0;
             precio_maximo := PyInt 0 |},
       {| items_db := []; next_id := n |}).
Proof. intros alg n. reflexivity. Qed.

(** C10. Listing, looking up and computing statistics leave the registry,
    item sequence and counter, exactly as it was, for every state and every
    argument, whether they succeed or fail. *)
Theorem reads_leave_state_unchanged :
  forall (alg : sum_algorithm) (s : db) (disp : option bool)
         (pmin pmax : option PyFloat.float) (i : Z),
    (obtener_items disp pmin pmax s).2 = s /\
    (obtener_item i s).2 = s /\
    (obtener_estadisticas alg s).2 = s.
Proof.
  intros alg s disp pmin pmax i. split_and!.
  - reflexivity.
  - by rewrite obtener_item_eq.
  - reflexivity.
Qed.

(** * Worked examples *)

Lemma seed_ids_unique (t1 t2 : datetime) : ids_unique (seed t1 t2).
Proof. apply seed_inv. Defined.

Lemma laptop_stored (t1 t2 : datetime) : laptop t1 ∈ items_db (seed t1 t2).
Proof. left. Defined.

Lemma mouse_stored (t1 t2 : datetime) : mouse t2 ∈ items_db (seed t1 t2).
Proof. right. left. Defined.

Lemma seed_absent (t1 t2 : datetime) (i : Z) :
  i <> 1 -> i <> 2 ->
  forall item, item ∈ items_db (seed t1 t2) -> id item <> i.
Proof.
  intros H1 H2 item Hin.
  apply elem_of_cons in Hin as [->|Hin]; [simpl; congruence|].
  apply elem_of_cons in Hin as [->|Hin]; [simpl; congruence|].
  by apply not_elem_of_nil in Hin.
Defined.

(** On [sample_run] the creates return 3 and 4, and 3, deleted in between,
    is not returned again. *)
Lemma ids_assigned_monotonically_witness :
  let tr := (trace PlainSum sample_run (seed 100 200)).1 in
  assigned_ids tr = [3; 4] /\
  StronglySorted Z.lt ([1; 2] ++ assigned_ids tr) /\
  3 ∉ assigned_ids (drop 2 tr).
Proof.
  intros tr.
  destruct (ids_assigned_monotonically PlainSum 100 200 sample_run)
    as (_ & _ & Hsorted & Hfresh).
  split; [reflexivity|]. split; [exact Hsorted|].
  apply (Hfresh (take 1 tr) 3 (drop 2 tr)). reflexivity.
Defined.

(** Replacing the mouse (id 2) by the cable's fields. *)
Lemma update_keeps_id_and_created_at_witness :
  ItemBase_valid cable_usb = true /\
  exists (k : nat) (nuevo : Item) (s' : db),
    actualizar_item 2 cable_usb (seed 100 200) = (Ok nuevo, s') /\
    id nuevo = id (mouse 200) /\
    fecha_creacion nuevo = fecha_creacion (mouse 200) /\
    nombre (base nuevo) = nombre cable_usb /\
    descripcion (base nuevo) = descripcion cable_usb /\
    precio (base nuevo) = precio cable_usb /\
    disponible (base nuevo) = disponible cable_usb /\
    items_db (seed 100 200) !! k = Some (mouse 200) /\
    items_db s' = <[k := nuevo]> (items_db (seed 100 200)) /\
    next_id s' = next_id (seed 100 200) /\
    obtener_item 2 s' = (Ok nuevo, s').
Proof.
  split; [reflexivity|].
  apply (update_keeps_id_and_created_at (seed 100 200) 2 cable_usb (mouse 200)).
  - apply seed_ids_unique.
  - apply mouse_stored.
  - reflexivity.
  - reflexivity.
Defined.

(** [disponible=true, precio_min=50, precio_max=2000] on the seed keeps the
    laptop only. *)
Lemma list_items_is_conjunctive_filter_witness :
  obtener_items (Some true) (Some (PyFloat.of_int 50)) (Some (PyFloat.of_int 2000))
    (seed 100 200) = (Ok [laptop 100], seed 100 200) /\
  satisfies (Some true) (Some (PyFloat.of_int 50)) (Some (PyFloat.of_int 2000))
    (laptop 100).
Proof.
  destruct (list_items_is_conjunctive_filter (seed 100 200) (Some true)
              (Some (PyFloat.of_int 50)) (Some (PyFloat.of_int 2000)))
    as (Heq & Hsat & _).
  split.
  - rewrite Heq. reflexivity.
  - apply Hsat. reflexivity.
Defined.

(** Id 9999 is not in the seed; id 2 is the mouse. *)
Lemma get_item_not_found_iff_absent_witness :
  (obtener_item 9999 (seed 100 200)).1 = Error (NotFound 9999) /\
  obtener_item 2 (seed 100 200) = (Ok (mouse 200), seed 100 200).
Proof.
  split.
  - apply (proj1 (get_item_not_found_iff_absent (seed 100 200) 9999)).
    by apply seed_absent.
  - apply (proj2 (proj2 (get_item_not_found_iff_absent (seed 100 200) 2))).
    + apply seed_ids_unique.
    + apply mouse_stored.
    + reflexivity.
Defined.

(** Deleting id 1 from the seed leaves the mouse; deleting 9999 fails. *)
Lemma delete_item_removes_exactly_one_witness :
  (exists l1 l2 s',
      items_db (seed 100 200) = l1 ++ laptop 100 :: l2 /\
      eliminar_item 1 (seed 100 200) = (Ok tt, s') /\
      items_db s' = l1 ++ l2 /\
      next_id s' = next_id (seed 100 200) /\
      obtener_item 1 s' = (Error (NotFound 1), s')) /\
  eliminar_item 9999 (seed 100 200) = (Error (NotFound 9999), seed 100 200).
Proof.
  destruct (delete_item_removes_exactly_one (seed 100 200) 1) as (_ & _ & Hdel).
  destruct (delete_item_removes_exactly_one (seed 100 200) 9999) as (_ & Hnf & _).
  split.
  - apply Hdel.
    + apply seed_ids_unique.
    + apply laptop_stored.
    + reflexivity.
  - by apply Hnf, seed_absent.
Defined.

(** Marking the mouse unavailable; patching id 9999 fails. *)
Lemma patch_changes_only_availability_witness :
  (exists (k : nat) (nuevo : Item) (s' : db),
      actualizar_disponibilidad 2 false (seed 100 200) = (Ok nuevo, s') /\
      disponible (base nuevo) = false /\
      id nuevo = id (mouse 200) /\
      nombre (base nuevo) = nombre (base (mouse 200)) /\
      descripcion (base nuevo) = descripcion (base (mouse 200)) /\
      precio (base nuevo) = precio (base (mouse 200)) /\
      fecha_creacion nuevo = fecha_creacion (mouse 200) /\
      items_db (seed 100 200) !! k = Some (mouse 200) /\
      items_db s' !! k = Some nuevo /\
      (forall j, j <> k -> items_db s' !! j = items_db (seed 100 200) !! j) /\
      length (items_db s') = length (items_db (seed 100 200)) /\
      next_id s' = next_id (seed 100 200)) /\
  actualizar_disponibilidad 9999 false (seed 100 200)
    = (Error (NotFound 9999), seed 100 200).
Proof.
  destruct (patch_changes_only_availability (seed 100 200) 2 false) as (Hpatch & _).
  destruct (patch_changes_only_availability (seed 100 200) 9999 false) as (_ & Hnf).
  split.
  - apply Hpatch.
    + apply seed_ids_unique.
    + apply mouse_stored.
    + reflexivity.
  - by apply Hnf, seed_absent.
Defined.

(** * Further properties of the handlers *)

(** ** The order on floats

    [SFcompare] orders every two values that are not NaN: by sign, then by
    exponent, then by mantissa. *)

Section FloatOrder.

Implicit Types (a b c : PyFloat.float).

Lemma compare_cont_Eq (m n : positive) : Pos.compare_cont Eq m n = (m ?= n)%positive.
Proof. reflexivity. Qed.

Ltac order_cases :=
  repeat match goal with
         | |- context [Pos.compare_cont Eq ?x ?y] =>
             change (Pos.compare_cont Eq x y) with (x ?= y)%positive in *
         | H : context [Pos.compare_cont Eq ?x ?y] |- _ =>
             change (Pos.compare_cont Eq x y) with (x ?= y)%positive in *
         | |- context [(?x ?= ?y)%Z] => destruct (Z.compare_spec x y)
         | H : context [(?x ?= ?y)%Z] |- _ => destruct (Z.compare_spec x y)
         | |- context [(?x ?= ?y)%positive] => destruct (Pos.compare_spec x y)
         | H : context [(?x ?= ?y)%positive] |- _ => destruct (Pos.compare_spec x y)
         end;
  simpl in *; try done; try lia.

Lemma leb_trans a b c :
  PyFloat.leb a b = true -> PyFloat.leb b c = true -> PyFloat.leb a c = true.
Proof.
  unfold PyFloat.leb, SFleb.
  destruct a as [sa|sa| |sa ma ea], b as [sb|sb| |sb mb eb],
    c as [sc|sc| |sc mc ec]; simpl; try done;
    try (destruct sa; simpl; try done); try (destruct sb; simpl; try done);
    try (destruct sc; simpl; try done);
    rewrite ?compare_cont_Eq; intros H1 H2; order_cases.
Qed.

Lemma leb_refl a : is_nan a = false -> PyFloat.leb a a = true.
Proof.
  unfold PyFloat.leb, SFleb. destruct a as [s|s| |s m e]; simpl; try done.
  - by destruct s.
  - intros _. destruct s; rewrite compare_cont_Eq, Z.compare_refl, Pos.compare_refl; done.
Qed.

(** Of two values that are not NaN, one is below the other. *)
Lemma ltb_false_leb a b :
  is_nan a = false -> is_nan b = false ->
  PyFloat.ltb b a = false -> PyFloat.leb a b = true.
Proof.
  unfold PyFloat.leb, PyFloat.ltb, SFleb, SFltb.
  destruct a as [sa|sa| |sa ma ea], b as [sb|sb| |sb mb eb]; simpl; try done;
    try (destruct sa; simpl; try done); try (destruct sb; simpl; try done);
    rewrite ?compare_cont_Eq; intros _ _ H; order_cases.
Qed.

Lemma ltb_leb a b : PyFloat.ltb a b = true -> PyFloat.leb a b = true.
Proof.
  unfold PyFloat.leb, PyFloat.ltb, SFleb, SFltb.
  by destruct (SFcompare a b) as [[]|].
Qed.

Lemma leb_not_nan a b : PyFloat.leb a b = true -> is_nan a = false /\ is_nan b = false.
Proof.
  unfold PyFloat.leb, SFleb.
  destruct a as [sa|sa| |sa ma ea], b as [sb|sb| |sb mb eb]; simpl; try done.
Qed.

Lemma precio_ok_not_nan a : precio_ok a = true -> is_nan a = false.
Proof. unfold precio_ok, PyFloat.ltb, SFltb. by destruct a. Qed.

End FloatOrder.

(** ** Minimum and maximum of a price column *)

Section MinMax.

Implicit Types (x y : PyFloat.float) (xs : list PyFloat.float).

Lemma py_min_cons x y xs :
  py_min x (y :: xs) = py_min (if PyFloat.ltb y x then y else x) xs.
Proof. reflexivity. Qed.

Lemma py_max_cons x y xs :
  py_max x (y :: xs) = py_max (if PyFloat.ltb x y then y else x) xs.
Proof. reflexivity. Qed.

Lemma py_min_spec xs : forall x,
  Forall (fun p => is_nan p = false) (x :: xs) ->
  py_min x xs ∈ x :: xs /\
  Forall (fun p => PyFloat.leb (py_min x xs) p = true) (x :: xs).
Proof.
  induction xs as [|y ys IH]; intros x Hnan.
  - apply Forall_cons in Hnan as [Hx _]. split; [left|].
    constructor; [by apply leb_refl|constructor].
  - apply Forall_cons in Hnan as [Hx Hnan].
    pose proof Hnan as Hys. apply Forall_cons in Hys as [Hy Hys].
    rewrite py_min_cons. set (x' := if PyFloat.ltb y x then y else x).
    assert (is_nan x' = false) as Hx' by (unfold x'; by destruct (PyFloat.ltb y x)).
    assert (PyFloat.leb x' x = true /\ PyFloat.leb x' y = true) as [Hlx Hly].
    { unfold x'. destruct (PyFloat.ltb y x) eqn:Hlt.
      - split; [by apply ltb_leb|by apply leb_refl].
      - split; [by apply leb_refl|by apply ltb_false_leb]. }
    destruct (IH x') as [Hin Hall]; [by constructor|].
    apply Forall_cons in Hall as [Hmx' Hall]. split.
    + apply elem_of_cons in Hin as [Hin|Hin].
      * rewrite Hin. unfold x'. destruct (PyFloat.ltb y x); [right; left|left].
      * by do 2 right.
    + repeat constructor; [by eapply leb_trans..|done].
Qed.

Lemma py_max_spec xs : forall x,
  Forall (fun p => is_nan p = false) (x :: xs) ->
  py_max x xs ∈ x :: xs /\
  Forall (fun p => PyFloat.leb p (py_max x xs) = true) (x :: xs).
Proof.
  induction xs as [|y ys IH]; intros x Hnan.
  - apply Forall_cons in Hnan as [Hx _]. split; [left|].
    constructor; [by apply leb_refl|constructor].
  - apply Forall_cons in Hnan as [Hx Hnan].
    pose proof Hnan as Hys. apply Forall_cons in Hys as [Hy Hys].
    rewrite py_max_cons. set (x' := if PyFloat.ltb x y then y else x).
    assert (is_nan x' = false) as Hx' by (unfold x'; by destruct (PyFloat.ltb x y)).
    assert (PyFloat.leb x x' = true /\ PyFloat.leb y x' = true) as [Hlx Hly].
    { unfold x'. destruct (PyFloat.ltb x y) eqn:Hlt.
      - split; [by apply ltb_leb|by apply leb_refl].
      - split; [by apply leb_refl|by apply ltb_false_leb]. }
    destruct (IH x') as [Hin Hall]; [by constructor|].
    apply Forall_cons in Hall as [Hmx' Hall]. split.
    + apply elem_of_cons in Hin as [Hin|Hin].
      * rewrite Hin. unfold x'. destruct (PyFloat.ltb x y); [right; left|left].
      * by do 2 right.
    + repeat constructor; [by eapply leb_trans..|done].
Qed.

Lemma items_valid_not_nan (l : list Item) :
  Forall (fun item => ItemBase_valid (base item) = true) l ->
  Forall (fun p => is_nan p = false) (precios l).
Proof.
  intros Hv. unfold precios. apply Forall_fmap.
  eapply Forall_impl; [exact Hv|]. intros item Hitem. simpl.
  unfold ItemBase_valid in Hitem. apply andb_true_iff in Hitem as [_ Hp].
  by apply precio_ok_not_nan.
Qed.

End MinMax.

(** X1. In a registry whose stored items meet the field constraints and
    that is not empty, the reported minimum and maximum are prices of stored
    items, the minimum is at most and the maximum at least every stored
    price. *)
Theorem stats_min_max_are_bounds :
  forall (alg : sum_algorithm) (s : db),
    items_valid s -> items_db s <> [] ->
    exists (st : Stats) (lo hi : PyFloat.float),
      obtener_estadisticas alg s = (Ok st, s) /\
      precio_minimo st = PyFloatV lo /\
      precio_maximo st = PyFloatV hi /\
      lo ∈ precios (items_db s) /\
      hi ∈ precios (items_db s) /\
      forall item, item ∈ items_db s ->
        PyFloat.leb lo (precio (base item)) = true /\
        PyFloat.leb (precio (base item)) hi = true.
Proof.
  intros alg s Hv Hne. apply items_valid_not_nan in Hv.
  unfold obtener_estadisticas, bind, get_items, ret, estadisticas.
  fold (precios (items_db s)).
  assert (forall item, item ∈ items_db s -> precio (base item) ∈ precios (items_db s))
    as Hmem
    by (intros item Hin; unfold precios;
        by apply (list_elem_of_fmap_2 (fun item => precio (base item)))).
  destruct (precios (items_db s)) as [|p ps] eqn:Hp.
  { destruct (items_db s); [done|discriminate Hp]. }
  destruct (py_min_spec ps p Hv) as [Hmin_in Hmin].
  destruct (py_max_spec ps p Hv) as [Hmax_in Hmax].
  eexists _, (py_min p ps), (py_max p ps). split; [reflexivity|].
  simpl. split_and!; try done.
  intros item Hin. specialize (Hmem item Hin).
  rewrite Forall_forall in Hmin, Hmax. split; [by apply Hmin|by apply Hmax].
Qed.

Lemma stats_min_max_are_bounds_witness :
  exists (st : Stats) (lo hi : PyFloat.float),
    obtener_estadisticas PlainSum (seed 100 200) = (Ok st, seed 100 200) /\
    precio_minimo st = PyFloatV lo /\
    precio_maximo st = PyFloatV hi /\
    lo ∈ precios (items_db (seed 100 200)) /\
    hi ∈ precios (items_db (seed 100 200)) /\
    forall item, item ∈ items_db (seed 100 200) ->
      PyFloat.leb lo (precio (base item)) = true /\
      PyFloat.leb (precio (base item)) hi = true.
Proof.
  apply (stats_min_max_are_bounds PlainSum (seed 100 200)).
  - repeat constructor.
  - discriminate.
Defined.

(** ** Listing and counting *)

Section Listing.

Implicit Types (l : list Item).

Lemma filter_none (P : Item -> Prop) `{!forall x, Decision (P x)} l :
  (forall item, item ∈ l -> ~ P item) -> filter P l = [].
Proof.
  induction l as [|item l IH]; intros Hno; [done|].
  rewrite filter_cons. case_decide as HP.
  - destruct (Hno item); [left|done].
  - apply IH. intros other Hin. apply Hno. by right.
Qed.

Lemma obtener_items_eq disp pmin pmax (s : db) :
  obtener_items disp pmin pmax s =
    (Ok (filter (fun item => satisfiesb disp pmin pmax item = true) (items_db s)), s).
Proof. unfold obtener_items, bind, get_items, ret. by rewrite price_filter_eq. Qed.

(** Available and unavailable items split the sequence. *)
Lemma disponible_split l :
  (length (filter (fun item => satisfiesb (Some true) None None item = true) l)
   + length (filter (fun item => satisfiesb (Some false) None None item = true) l)
   = length l)%nat.
Proof.
  induction l as [|item l IH]; [done|].
  rewrite !filter_cons.
  repeat case_decide; unfold satisfiesb in *;
    destruct (disponible (base item)); simpl in *; try congruence; lia.
Qed.

Lemma disponible_filter l :
  filter (fun item => disponible (base item) = true) l =
  filter (fun item => satisfiesb (Some true) None None item = true) l.
Proof.
  apply list_filter_iff. intros item. unfold satisfiesb.
  destruct (disponible (base item)); simpl; split; done.
Qed.

End Listing.

(** X2. The counts of the statistics agree with the listings: the number of
    available items is the length of the listing filtered on
    [disponible=true], the number of unavailable ones is the length of the
    listing filtered on [disponible=false], and the two add up to the total,
    which is the length of the unfiltered listing. *)
Theorem stats_counts_match_listings :
  forall (alg : sum_algorithm) (s : db),
    exists (st : Stats) (todos si no : list Item),
      obtener_estadisticas alg s = (Ok st, s) /\
      obtener_items None None None s = (Ok todos, s) /\
      obtener_items (Some true) None None s = (Ok si, s) /\
      obtener_items (Some false) None None s = (Ok no, s) /\
      total_items st = len todos /\
      items_disponibles st = len si /\
      items_no_disponibles st = len no /\
      items_disponibles st + items_no_disponibles st = total_items st.
Proof.
  intros alg s. eexists _, _, _, _.
  split; [reflexivity|]. split; [reflexivity|].
  split; [apply obtener_items_eq|]. split; [apply obtener_items_eq|].
  cbn [estadisticas total_items items_disponibles items_no_disponibles].
  rewrite disponible_filter. unfold len.
  pose proof (disponible_split (items_db s)) as Hsplit.
  split_and!; try done; lia.
Qed.

(** X3. A price window whose lower bound is not at most its upper bound,
    which includes a NaN on either side, lists nothing. *)
Theorem empty_price_window_lists_nothing :
  forall (s : db) (disp : option bool) (lo hi : PyFloat.float),
    PyFloat.leb lo hi = false ->
    obtener_items disp (Some lo) (Some hi) s = (Ok [], s).
Proof.
  intros s disp lo hi Hwin. rewrite obtener_items_eq. f_equal. f_equal.
  apply filter_none. intros item _ Hsat.
  unfold satisfiesb in Hsat.
  apply andb_true_iff in Hsat as [Hsat Hhi].
  apply andb_true_iff in Hsat as [_ Hlo].
  by rewrite (leb_trans _ _ _ Hlo Hhi) in Hwin.
Qed.

Lemma empty_price_window_lists_nothing_witness :
  obtener_items None (Some (PyFloat.of_int 2000)) (Some (PyFloat.of_int 50))
    (seed 100 200) = (Ok [], seed 100 200) /\
  obtener_items None (Some S754_nan) (Some (PyFloat.of_int 2000))
    (seed 100 200) = (Ok [], seed 100 200).
Proof.
  split.
  - apply (empty_price_window_lists_nothing (seed 100 200) None
             (PyFloat.of_int 2000) (PyFloat.of_int 50)). reflexivity.
  - apply (empty_price_window_lists_nothing (seed 100 200) None
             S754_nan (PyFloat.of_int 2000)). reflexivity.
Defined.

(** ** Error answers *)

Section ErrorAnswers.

Variable alg : sum_algorithm.

Implicit Types (s : db) (req : request) (r : raw_request) (body : ItemBase).

Lemma convert_Some r req : convert r = Some req -> r = embed req.
Proof.
  destruct r as [[d|] [lo|] [hi|]|[i|]|body now|[i|] body|[i|] [d|]|[i|]|];
    simpl; intros [= <-]; reflexivity.
Qed.

Lemma rejection_cases body :
  ItemBase_valid body = false ->
  match rejection body with
  | NotFound _ => False
  | ValidationError => violates body
  | InternalError =>
      precio_ok (precio body) = false /\ is_finite (precio body) = false
  end.
Proof.
  intros Hv. unfold rejection, echo_renders.
  destruct (precio_ok (precio body) || is_finite (precio body)) eqn:Hecho.
  - by apply ItemBase_valid_false.
  - by apply orb_false_iff in Hecho.
Qed.

(** What an error answer of [handle] says about the request and the state. *)
Lemma handle_error req s e :
  (handle alg req s).1 = RError e ->
  (handle alg req s).2 = s /\
  match e with
  | NotFound i => forall item, item ∈ items_db s -> id item <> i
  | ValidationError =>
      exists body, raw_body (embed req) = Some body /\ violates body
  | InternalError =>
      (req = GetStats /\ stats_render (estadisticas alg (items_db s)) = false) \/
      (exists body, raw_body (embed req) = Some body /\
         precio_ok (precio body) = false /\ is_finite (precio body) = false)
  end.
Proof.
  destruct req as [d lo hi|i|body now|i body|i d|i|]; cbn [handle].
  - done.
  - rewrite obtener_item_eq.
    destruct (find_by_id i (items_db s)) as [[k found]|] eqn:Hf; [done|].
    simpl. intros [= <-]. split; [done|]. by apply find_by_id_None.
  - destruct (ItemBase_valid body) eqn:Hv.
    + by rewrite (crear_item_valid _ _ _ Hv).
    + rewrite (crear_item_invalid _ _ _ Hv). simpl. intros [= <-].
      split; [done|]. pose proof (rejection_cases body Hv) as Hr.
      destruct (rejection body); [done|by exists body|right; by exists body].
  - destruct (ItemBase_valid body) eqn:Hv.
    + destruct (find_by_id i (items_db s)) as [[k found]|] eqn:Hf.
      * by rewrite (actualizar_item_found _ _ _ _ _ Hv Hf).
      * rewrite (actualizar_item_missing _ _ _ Hv Hf). simpl. intros [= <-].
        split; [done|]. by apply find_by_id_None.
    + rewrite (actualizar_item_invalid _ _ _ Hv). simpl. intros [= <-].
      split; [done|]. pose proof (rejection_cases body Hv) as Hr.
      destruct (rejection body); [done|by exists body|right; by exists body].
  - destruct (find_by_id i (items_db s)) as [[k found]|] eqn:Hf.
    + by rewrite (actualizar_disponibilidad_found _ _ _ _ _ Hf).
    + rewrite (actualizar_disponibilidad_missing _ _ _ Hf). simpl. intros [= <-].
      split; [done|]. by apply find_by_id_None.
  - destruct (find_by_id i (items_db s)) as [[k found]|] eqn:Hf.
    + by rewrite (eliminar_item_found _ _ _ _ Hf).
    + rewrite (eliminar_item_missing _ _ Hf). simpl. intros [= <-].
      split; [done|]. by apply find_by_id_None.
  - unfold obtener_estadisticas, bind, get_items, ret. simpl.
    destruct (stats_render (estadisticas alg (items_db s))) eqn:Hr; [done|].
    simpl. intros [= <-]. split; [done|]. by left.
Qed.

End ErrorAnswers.



(** ** What a request does to the id sequence *)

Section IdSequence.

Variable alg : sum_algorithm.

Implicit Types (s : db) (r : request).

Lemma handle_ids_effect r s :
  let s' := (handle alg r s).2 in
  (ids s' = ids s /\ next_id s' = next_id s) \/
  (exists body now, r = PostItem body now /\
     ids s' = ids s ++ [next_id s] /\ next_id s' = next_id s + 1) \/
  (exists i l1 l2, r = DeleteItem i /\
     ids s = l1 ++ i :: l2 /\ (i ∉ l1) /\
     ids s' = l1 ++ l2 /\ next_id s' = next_id s).
Proof.
  destruct r as [d lo hi|i|body now|i body|i d|i|];
    cbn zeta; cbn [handle]; rewrite respond_snd, ?render_stats_snd.
  - by left.
  - left. by rewrite obtener_item_eq.
  - destruct (ItemBase_valid body) eqn:Hv.
    + right. left. exists body, now. split; [done|].
      rewrite (crear_item_valid _ _ _ Hv). unfold ids. simpl.
      by rewrite fmap_app.
    + left. by rewrite (crear_item_invalid _ _ _ Hv).
  - left. destruct (ItemBase_valid body) eqn:Hv.
    + destruct (find_by_id i (items_db s)) as [[k old]|] eqn:Hf.
      * rewrite (actualizar_item_found _ _ _ _ _ Hv Hf). unfold ids. simpl.
        destruct (find_by_id_Some _ _ _ _ Hf) as (Hk & Hid & _).
        split; [|done]. by apply (ids_insert_same _ _ old).
      * by rewrite (actualizar_item_missing _ _ _ Hv Hf).
    + by rewrite (actualizar_item_invalid _ _ _ Hv).
  - left. destruct (find_by_id i (items_db s)) as [[k old]|] eqn:Hf.
    + rewrite (actualizar_disponibilidad_found _ _ _ _ _ Hf). unfold ids. simpl.
      destruct (find_by_id_Some _ _ _ _ Hf) as (Hk & Hid & _).
      split; [|done]. by apply (ids_insert_same _ _ old).
    + by rewrite (actualizar_disponibilidad_missing _ _ _ Hf).
  - destruct (find_by_id i (items_db s)) as [[k old]|] eqn:Hf.
    + right. right.
      destruct (find_by_id_Some _ _ _ _ Hf) as (Hk & Hid & Hfirst).
      destruct (split_at _ _ _ Hk) as [Hsplit Hdel].
      exists i, (id <$> take k (items_db s)), (id <$> drop (S k) (items_db s)).
      rewrite (eliminar_item_found _ _ _ _ Hf). unfold ids. simpl.
      split_and!; try done.
      * rewrite Hsplit at 1. by rewrite fmap_app, fmap_cons, Hid.
      * intros Hin. apply list_elem_of_fmap in Hin as (other & Hoid & Hin).
        apply list_elem_of_lookup_1 in Hin as [j Hj].
        pose proof (lookup_lt_Some _ _ _ Hj) as Hlt.
        rewrite length_take in Hlt.
        rewrite lookup_take_lt in Hj by lia.
        by apply (Hfirst j other Hj); [lia|].
      * by rewrite Hdel, fmap_app.
    + left. by rewrite (eliminar_item_missing _ _ Hf).
  - by left.
Qed.

Lemma StronglySorted_lt_NoDup (l : list Z) : StronglySorted Z.lt l -> NoDup l.
Proof.
  induction 1 as [|x l Hs IH Hall]; constructor; [|done].
  intros Hin. rewrite Forall_forall in Hall. specialize (Hall x Hin). lia.
Qed.

Lemma ids_below_alt s : ids_below s <-> Forall (fun x => x < next_id s) (ids s).
Proof. unfold ids_below, ids. by rewrite Forall_fmap. Qed.

(** Increasing ids below the counter stay so under every request. *)
Lemma handle_sorted r s :
  ids_sorted s -> ids_below s ->
  ids_sorted (handle alg r s).2 /\ ids_below (handle alg r s).2.
Proof.
  intros Hs Hb. rewrite ids_below_alt in *. unfold ids_sorted in *.
  destruct (handle_ids_effect r s)
    as [[-> ->]|[(body & now & _ & -> & ->)|(i & l1 & l2 & _ & Hsplit & _ & -> & ->)]].
  - done.
  - split.
    + apply StronglySorted_app. split_and!; [|done|repeat constructor].
      intros x1 x2 Hx1 Hx2. apply list_elem_of_singleton in Hx2 as ->.
      rewrite Forall_forall in Hb. by apply Hb.
    + apply Forall_app. split.
      * eapply Forall_impl; [exact Hb|]. simpl. intros; lia.
      * repeat constructor. lia.
  - rewrite Hsplit in Hs, Hb. split.
    + apply StronglySorted_app in Hs as (Hcross & Hs1 & Hs2).
      apply StronglySorted_app. split_and!; [|done|by inversion Hs2].
      intros x1 x2 Hx1 Hx2. apply Hcross; [done|by right].
    + apply Forall_app in Hb as [Hb1 Hb2]. apply Forall_app. split; [done|].
      by inversion Hb2.
Qed.

Lemma trace_sorted reqs : forall s,
  ids_sorted s -> ids_below s ->
  ids_sorted (trace alg reqs s).2 /\ ids_below (trace alg reqs s).2.
Proof.
  induction reqs as [|r rest IH]; intros s Hs Hb; [done|].
  rewrite trace_cons. cbn [snd].
  destruct (handle_sorted r s Hs Hb) as [Hs' Hb']. by apply IH.
Qed.

Lemma seed_sorted t1 t2 : ids_sorted (seed t1 t2) /\ ids_below (seed t1 t2).
Proof.
  split.
  - unfold ids_sorted, ids. simpl. repeat constructor.
  - apply seed_inv.
Qed.

End IdSequence.

(** ** Validity of stored items and the counter along a run *)

Section RunInvariants.

Variable alg : sum_algorithm.

Implicit Types (s : db) (r : request).

Lemma valid_ignores_disponible (b : ItemBase) (d : bool) :
  ItemBase_valid {| nombre := nombre b; descripcion := descripcion b;
                    precio := precio b; disponible := d |} = ItemBase_valid b.
Proof. reflexivity. Qed.

Lemma handle_items_valid r s : items_valid s -> items_valid (handle alg r s).2.
Proof.
  unfold items_valid. intros Hv.
  destruct r as [d lo hi|i|body now|i body|i d|i|];
    cbn [handle]; rewrite respond_snd, ?render_stats_snd.
  - done.
  - by rewrite obtener_item_eq.
  - destruct (ItemBase_valid body) eqn:Hb.
    + rewrite (crear_item_valid _ _ _ Hb). simpl.
      apply Forall_app. split; [done|]. by repeat constructor.
    + by rewrite (crear_item_invalid _ _ _ Hb).
  - destruct (ItemBase_valid body) eqn:Hb.
    + destruct (find_by_id i (items_db s)) as [[k old]|] eqn:Hf.
      * rewrite (actualizar_item_found _ _ _ _ _ Hb Hf). simpl.
        by apply Forall_insert.
      * by rewrite (actualizar_item_missing _ _ _ Hb Hf).
    + by rewrite (actualizar_item_invalid _ _ _ Hb).
  - destruct (find_by_id i (items_db s)) as [[k old]|] eqn:Hf.
    + rewrite (actualizar_disponibilidad_found _ _ _ _ _ Hf). simpl.
      apply Forall_insert; [done|]. simpl. rewrite valid_ignores_disponible.
      destruct (find_by_id_Some _ _ _ _ Hf) as (Hk & _ & _).
      rewrite Forall_forall in Hv. apply Hv. by eapply list_elem_of_lookup_2.
    + by rewrite (actualizar_disponibilidad_missing _ _ _ Hf).
  - destruct (find_by_id i (items_db s)) as [[k old]|] eqn:Hf.
    + rewrite (eliminar_item_found _ _ _ _ Hf). simpl. by apply Forall_delete.
    + by rewrite (eliminar_item_missing _ _ Hf).
  - done.
Qed.

Lemma trace_items_valid reqs : forall s,
  items_valid s -> items_valid (trace alg reqs s).2.
Proof.
  induction reqs as [|r rest IH]; intros s Hv; [done|].
  rewrite trace_cons. cbn [snd]. by apply IH, handle_items_valid.
Qed.

(** The counter moves by one on a create that succeeds and not otherwise. *)
Lemma handle_next_id_exact r s :
  next_id (handle alg r s).2 =
    next_id s + (if created (r, (handle alg r s).1) then 1 else 0).
Proof.
  destruct (assigned (r, (handle alg r s).1)) as [x|] eqn:Hx.
  - unfold created. rewrite Hx. apply handle_assigned in Hx as [-> ->]. done.
  - unfold created. rewrite Hx.
    destruct (handle_ids_effect alg r s)
      as [[_ ->]|[(body & now & -> & _ & _)|(i & l1 & l2 & _ & _ & _ & _ & ->)]];
      [lia| |lia].
    cbn [handle] in *. destruct (ItemBase_valid body) eqn:Hb.
    + by rewrite (crear_item_valid _ _ _ Hb) in Hx.
    + rewrite (crear_item_invalid _ _ _ Hb). simpl. lia.
Qed.

Lemma trace_issues_consecutive reqs : forall s,
  (forall k x, assigned_ids (trace alg reqs s).1 !! k = Some x ->
               x = next_id s + Z.of_nat k) /\
  next_id (trace alg reqs s).2 =
    next_id s + len (assigned_ids (trace alg reqs s).1).
Proof.
  induction reqs as [|r rest IH]; intros s.
  - simpl. split; [done|]. unfold len. simpl. lia.
  - rewrite trace_cons. cbn [fst snd]. rewrite assigned_ids_cons.
    destruct (IH (handle alg r s).2) as [IHk IHn].
    pose proof (handle_next_id_exact r s) as Hstep. unfold created in Hstep.
    destruct (assigned (r, (handle alg r s).1)) as [x|] eqn:Hx.
    + apply handle_assigned in Hx as [-> Hnext]. split.
      * intros [|k] y Hy; simpl in Hy.
        -- injection Hy as <-. lia.
        -- apply IHk in Hy. lia.
      * rewrite IHn. unfold len. simpl length. lia.
    + split.
      * intros k y Hy. apply IHk in Hy. lia.
      * rewrite IHn. lia.
Qed.

End RunInvariants.

(** X5. What a request does to the sequence of stored ids, read off its
    answer.  A create answered with an item has appended that item's id,
    which is the old counter, and moved the counter by one; a delete
    answered with success has taken out the first occurrence of its id and
    left the ids before and after it in their order; every other answer,
    to whatever request, leaves the id sequence and the counter as they
    were, so updates and patches never move or renumber an item.  A create
    with a valid body is answered with an item, and a delete of a stored id
    with success. *)
Theorem request_effect_on_id_sequence :
  forall (alg : sum_algorithm) (r : request) (s : db),
    let resp := (handle alg r s).1 in
    let s' := (handle alg r s).2 in
    match r, resp with
    | PostItem _ _, RItem item =>
        id item = next_id s /\
        ids s' = ids s ++ [id item] /\ next_id s' = next_id s + 1
    | DeleteItem i, RDeleted =>
        exists l1 l2,
          ids s = l1 ++ i :: l2 /\ (i ∉ l1) /\
          ids s' = l1 ++ l2 /\ next_id s' = next_id s
    | _, _ => ids s' = ids s /\ next_id s' = next_id s
    end /\
    (forall body now, r = PostItem body now -> ItemBase_valid body = true ->
       exists item, resp = RItem item) /\
    (forall i, r = DeleteItem i -> i ∈ ids s -> resp = RDeleted).
Proof.
  intros alg r s resp s'. subst resp s'.
  destruct r as [d lo hi|i|body now|i body|i d|i|]; cbn [handle].
  - split_and!; try done.
  - rewrite obtener_item_eq.
    destruct (find_by_id i (items_db s)) as [[k found]|]; split_and!; done.
  - destruct (ItemBase_valid body) eqn:Hv.
    + rewrite (crear_item_valid _ _ _ Hv). simpl. split_and!; try done.
      * unfold ids. simpl. by rewrite fmap_app.
      * intros ? ? _ _. by eexists.
    + rewrite (crear_item_invalid _ _ _ Hv). simpl. split_and!; try done.
      intros body' now' [= <- <-] Hv'. congruence.
  - destruct (ItemBase_valid body) eqn:Hv.
    + destruct (find_by_id i (items_db s)) as [[k old]|] eqn:Hf.
      * rewrite (actualizar_item_found _ _ _ _ _ Hv Hf). simpl.
        destruct (find_by_id_Some _ _ _ _ Hf) as (Hk & Hid & _).
        split_and!; try done. unfold ids. simpl.
        by apply (ids_insert_same _ _ old).
      * rewrite (actualizar_item_missing _ _ _ Hv Hf). split_and!; done.
    + rewrite (actualizar_item_invalid _ _ _ Hv). split_and!; done.
  - destruct (find_by_id i (items_db s)) as [[k old]|] eqn:Hf.
    + rewrite (actualizar_disponibilidad_found _ _ _ _ _ Hf). simpl.
      destruct (find_by_id_Some _ _ _ _ Hf) as (Hk & Hid & _).
      split_and!; try done. unfold ids. simpl.
      by apply (ids_insert_same _ _ old).
    + rewrite (actualizar_disponibilidad_missing _ _ _ Hf). split_and!; done.
  - destruct (find_by_id i (items_db s)) as [[k old]|] eqn:Hf.
    + rewrite (eliminar_item_found _ _ _ _ Hf). simpl.
      destruct (find_by_id_Some _ _ _ _ Hf) as (Hk & Hid & Hfirst).
      destruct (split_at _ _ _ Hk) as [Hsplit Hdel].
      split_and!; try done.
      exists (id <$> take k (items_db s)), (id <$> drop (S k) (items_db s)).
      unfold ids. simpl. split_and!.
      * rewrite Hsplit at 1. by rewrite fmap_app, fmap_cons, Hid.
      * intros Hin. apply list_elem_of_fmap in Hin as (other & Hoid & Hin).
        apply list_elem_of_lookup_1 in Hin as [j Hj].
        pose proof (lookup_lt_Some _ _ _ Hj) as Hlt.
        rewrite length_take in Hlt.
        rewrite lookup_take_lt in Hj by lia.
        by apply (Hfirst j other Hj); [lia|].
      * by rewrite Hdel, fmap_app.
      * done.
    + rewrite (eliminar_item_missing _ _ Hf). simpl. split_and!; try done.
      intros i' [= <-] Hin.
      pose proof (proj1 (find_by_id_None _ _) Hf) as Habs.
      apply list_elem_of_fmap in Hin as (item & Hid & Hin).
      by destruct (Habs item Hin).
  - rewrite respond_snd, render_stats_snd. split_and!; done.
Qed.

(** On the seed: a create returns id 3 and the ids become 1, 2, 3; deleting
    id 1 leaves 2; a patch leaves 1, 2. *)
Lemma request_effect_on_id_sequence_witness :
  let s := seed 100 200 in
  (exists item, (handle PlainSum (PostItem cable_usb 300) s).1 = RItem item) /\
  ids (handle PlainSum (PostItem cable_usb 300) s).2 = [1; 2; 3] /\
  (handle PlainSum (DeleteItem 1) s).1 = RDeleted /\
  ids (handle PlainSum (DeleteItem 1) s).2 = [2] /\
  ids (handle PlainSum (PatchDisponibilidad 2 false) s).2 = ids s.
Proof.
  intros s.
  destruct (request_effect_on_id_sequence PlainSum (PostItem cable_usb 300) s)
    as (_ & Hcreate & _).
  destruct (request_effect_on_id_sequence PlainSum (DeleteItem 1) s)
    as (_ & _ & Hdelete).
  destruct (request_effect_on_id_sequence PlainSum (PatchDisponibilidad 2 false) s)
    as ([Hpatch _] & _ & _).
  split_and!.
  - by apply (Hcreate cable_usb 300).
  - reflexivity.
  - apply (Hdelete 1); [reflexivity|left].
  - reflexivity.
  - exact Hpatch.
Defined.

(** X6. If the stored ids increase along the sequence and lie below the
    counter, they still do after any sequence of requests; in particular
    they stay pairwise distinct.  The seeded state is such a state, so every
    listing shows items in increasing id order. *)
Theorem run_keeps_ids_increasing :
  forall (alg : sum_algorithm) (reqs : list request) (s : db),
    ids_sorted s -> ids_below s ->
    let s' := (trace alg reqs s).2 in
    ids_sorted s' /\ ids_below s' /\ ids_unique s'.
Proof.
  intros alg reqs s Hs Hb s'.
  destruct (trace_sorted alg reqs s Hs Hb) as [Hs' Hb'].
  split_and!; [done|done|]. by apply StronglySorted_lt_NoDup.
Qed.

Lemma run_keeps_ids_increasing_witness :
  let s' := (trace PlainSum sample_run (seed 100 200)).2 in
  ids s' = [1; 2; 4] /\ ids_sorted s' /\ ids_below s' /\ ids_unique s'.
Proof.
  intros s'. split; [reflexivity|].
  apply (run_keeps_ids_increasing PlainSum sample_run (seed 100 200)).
  - unfold ids_sorted, ids. simpl. repeat constructor.
  - unfold ids_below. simpl. repeat constructor.
Defined.

(** X7. If every stored item meets the field constraints, every stored item
    still does after any sequence of requests: its price is above 0, its
    name has between 1 and 100 characters and its description, when there is
    one, at most 500. *)
Theorem run_keeps_items_valid :
  forall (alg : sum_algorithm) (reqs : list request) (s : db),
    items_valid s ->
    forall item, item ∈ items_db (trace alg reqs s).2 ->
      PyFloat.ltb PyFloat.zero (precio (base item)) = true /\
      (1 <= length (nombre (base item)) <= 100)%nat /\
      (forall d, descripcion (base item) = Some d -> (length d <= 500)%nat).
Proof.
  intros alg reqs s Hv item Hin.
  pose proof (trace_items_valid alg reqs s Hv) as Hv'.
  unfold items_valid in Hv'. rewrite Forall_forall in Hv'.
  specialize (Hv' item Hin).
  unfold ItemBase_valid, nombre_ok, descripcion_ok, precio_ok in Hv'.
  apply andb_true_iff in Hv' as [Hv' Hp].
  apply andb_true_iff in Hv' as [Hn Hd].
  apply andb_true_iff in Hn as [Hn1 Hn2].
  apply Nat.leb_le in Hn1, Hn2. split_and!; try done.
  intros d Hdesc. rewrite Hdesc in Hd. by apply Nat.leb_le.
Qed.

Lemma run_keeps_items_valid_witness :
  let item := {| base := cable_usb; id := 4; fecha_creacion := 11 |} in
  item ∈ items_db (trace PlainSum sample_run (seed 100 200)).2 /\
  PyFloat.ltb PyFloat.zero (precio (base item)) = true /\
  (1 <= length (nombre (base item)) <= 100)%nat /\
  (forall d, descripcion (base item) = Some d -> (length d <= 500)%nat).
Proof.
  intros item.
  assert (item ∈ items_db (trace PlainSum sample_run (seed 100 200)).2) as Hin
    by (do 2 right; left).
  split; [exact Hin|].
  apply (run_keeps_items_valid PlainSum sample_run (seed 100 200)); [|exact Hin].
  repeat constructor.
Defined.

(** X8. Ids are issued without gaps: along any run the k-th create that
    succeeds returns the starting counter plus k (counting from 0), whatever
    requests fail or delete in between, and the counter ends at its start
    plus the number of creates that succeeded. *)
Theorem ids_issued_consecutively :
  forall (alg : sum_algorithm) (reqs : list request) (s : db),
    let tr := (trace alg reqs s).1 in
    (forall k x, assigned_ids tr !! k = Some x -> x = next_id s + Z.of_nat k) /\
    next_id (trace alg reqs s).2 = next_id s + len (assigned_ids tr).
Proof. intros alg reqs s. apply trace_issues_consecutive. Qed.

Lemma ids_issued_consecutively_witness :
  let tr := (trace PlainSum sample_run (seed 100 200)).1 in
  assigned_ids tr = [3; 4] /\
  next_id (trace PlainSum sample_run (seed 100 200)).2 = 5 /\
  (forall x, assigned_ids tr !! 1%nat = Some x -> x = 4).
Proof.
  intros tr.
  destruct (ids_issued_consecutively PlainSum sample_run (seed 100 200))
    as [Hk Hn].
  split; [reflexivity|]. split; [exact Hn|].
  intros x Hx. exact (Hk 1%nat x Hx).
Defined.

(** ** Lookups after a write *)

Section Frame.

Implicit Types (s : db) (l : list Item) (i j : Z).

(** The first match of a search is the head of the matching items. *)
Lemma list_find_head {A} (P : A -> Prop) `{!forall x, Decision (P x)} (l : list A) :
  snd <$> list_find P l = head (filter P l).
Proof.
  induction l as [|x l IH]; [done|].
  rewrite filter_cons. simpl. case_decide; [done|].
  rewrite <- IH. by destruct (list_find P l) as [[]|].
Qed.

Lemma obtener_item_head i s :
  (obtener_item i s).1 =
    match head (filter (fun item => id item = i) (items_db s)) with
    | Some item => Ok item
    | None => Error (NotFound i)
    end.
Proof.
  rewrite obtener_item_eq. cbn [fst]. rewrite <- list_find_head.
  unfold find_by_id. by destruct (list_find _ (items_db s)) as [[]|].
Qed.

Lemma filter_insert_other j l k old nuevo :
  l !! k = Some old -> id old <> j -> id nuevo <> j ->
  filter (fun item => id item = j) (<[k := nuevo]> l) =
  filter (fun item => id item = j) l.
Proof.
  intros Hk Hold Hnew.
  rewrite insert_take_drop by (by eapply lookup_lt_Some).
  rewrite <- (take_drop_middle l k old Hk) at 3.
  rewrite !filter_app. f_equal. by rewrite !filter_cons_False.
Qed.

Lemma filter_delete_other j l k old :
  l !! k = Some old -> id old <> j ->
  filter (fun item => id item = j) (delete k l) =
  filter (fun item => id item = j) l.
Proof.
  intros Hk Hold. rewrite delete_take_drop.
  rewrite <- (take_drop_middle l k old Hk) at 3.
  rewrite !filter_app. f_equal. by rewrite filter_cons_False.
Qed.

Lemma find_by_id_snoc l (x : Item) :
  (forall item, item ∈ l -> id item <> id x) ->
  find_by_id (id x) (l ++ [x]) = Some (length l, x).
Proof.
  intros Hnew. unfold find_by_id. apply list_find_Some. split_and!.
  - by apply list_lookup_middle.
  - done.
  - intros k other Hk Hlt. rewrite lookup_app_l in Hk by done.
    apply Hnew. by eapply list_elem_of_lookup_2.
Qed.

Lemma ids_below_fresh s :
  ids_below s -> forall item, item ∈ items_db s -> id item <> next_id s.
Proof.
  unfold ids_below. rewrite Forall_forall. intros Hb item Hin.
  specialize (Hb item Hin). lia.
Qed.

End Frame.

(** X9. A write is local to the id it is addressed to: whatever a create,
    update, patch or delete does, a lookup of any other id returns after
    the request exactly what it returned before, item or not-found; reads
    change no lookup at all. *)
Theorem write_leaves_other_lookups :
  forall (alg : sum_algorithm) (r : request) (s : db) (j : Z),
    target r s <> Some j ->
    (obtener_item j (handle alg r s).2).1 = (obtener_item j s).1.
Proof.
  intros alg r s j Hj. rewrite !obtener_item_head.
  destruct r as [d lo hi|i|body now|i body|i d|i|];
    cbn [handle]; rewrite respond_snd, ?render_stats_snd; cbn [target] in Hj.
  - done.
  - by rewrite obtener_item_eq.
  - destruct (ItemBase_valid body) eqn:Hb.
    + rewrite (crear_item_valid _ _ _ Hb). simpl.
      rewrite filter_app, filter_cons_False, filter_nil, app_nil_r; [done|].
      simpl. congruence.
    + by rewrite (crear_item_invalid _ _ _ Hb).
  - destruct (ItemBase_valid body) eqn:Hb.
    + destruct (find_by_id i (items_db s)) as [[k old]|] eqn:Hf.
      * rewrite (actualizar_item_found _ _ _ _ _ Hb Hf). simpl.
        destruct (find_by_id_Some _ _ _ _ Hf) as (Hk & Hid & _).
        rewrite (filter_insert_other j _ k old); [done..| |]; simpl; congruence.
      * by rewrite (actualizar_item_missing _ _ _ Hb Hf).
    + by rewrite (actualizar_item_invalid _ _ _ Hb).
  - destruct (find_by_id i (items_db s)) as [[k old]|] eqn:Hf.
    + rewrite (actualizar_disponibilidad_found _ _ _ _ _ Hf). simpl.
      destruct (find_by_id_Some _ _ _ _ Hf) as (Hk & Hid & _).
      rewrite (filter_insert_other j _ k old); [done..| |]; simpl; congruence.
    + by rewrite (actualizar_disponibilidad_missing _ _ _ Hf).
  - destruct (find_by_id i (items_db s)) as [[k old]|] eqn:Hf.
    + rewrite (eliminar_item_found _ _ _ _ Hf). simpl.
      destruct (find_by_id_Some _ _ _ _ Hf) as (Hk & Hid & _).
      rewrite (filter_delete_other j _ k old); [done..|]. congruence.
    + by rewrite (eliminar_item_missing _ _ Hf).
  - done.
Qed.

Lemma write_leaves_other_lookups_witness :
  (obtener_item 2 (handle PlainSum (DeleteItem 1) (seed 100 200)).2).1
    = (obtener_item 2 (seed 100 200)).1 /\
  (obtener_item 2 (seed 100 200)).1 = Ok (mouse 200).
Proof.
  split; [|reflexivity].
  apply (write_leaves_other_lookups PlainSum (DeleteItem 1) (seed 100 200) 2).
  discriminate.
Defined.

(** X10. Create then read: when the stored ids are below the counter, a
    create with a valid body returns an item that carries the body's
    fields, the counter's value as id and the given time, appends it at the
    end of the sequence, and a lookup of the returned id gives back that
    item. *)
Theorem create_then_get :
  forall (s : db) (body : ItemBase) (now : datetime),
    ids_below s -> ItemBase_valid body = true ->
    exists (nuevo : Item) (s' : db),
      crear_item body now s = (Ok nuevo, s') /\
      base nuevo = body /\ id nuevo = next_id s /\ fecha_creacion nuevo = now /\
      items_db s' = items_db s ++ [nuevo] /\
      next_id s' = next_id s + 1 /\
      obtener_item (id nuevo) s' = (Ok nuevo, s').
Proof.
  intros s body now Hb Hv. eexists _, _.
  split; [by apply crear_item_valid|]. simpl. split_and!; try done.
  rewrite obtener_item_eq. simpl.
  set (nuevo := {| base := body; id := next_id s; fecha_creacion := now |}).
  change (next_id s) with (id nuevo).
  rewrite find_by_id_snoc; [done|]. by apply ids_below_fresh.
Qed.

Lemma create_then_get_witness :
  exists (nuevo : Item) (s' : db),
    crear_item cable_usb 300 (seed 100 200) = (Ok nuevo, s') /\
    base nuevo = cable_usb /\ id nuevo = next_id (seed 100 200) /\
    fecha_creacion nuevo = 300 /\
    items_db s' = items_db (seed 100 200) ++ [nuevo] /\
    next_id s' = next_id (seed 100 200) + 1 /\
    obtener_item (id nuevo) s' = (Ok nuevo, s').
Proof.
  apply (create_then_get (seed 100 200) cable_usb 300).
  - unfold ids_below. simpl. repeat constructor.
  - reflexivity.
Defined.

(** X11. Create then delete: when the stored ids are below the counter,
    deleting the id a create has just returned succeeds and puts the item
    sequence back to what it was before the create; the counter keeps its
    advance, so the id is not handed out again. *)
Theorem create_then_delete_restores_items :
  forall (s : db) (body : ItemBase) (now : datetime),
    ids_below s -> ItemBase_valid body = true ->
    exists (nuevo : Item) (s1 : db),
      crear_item body now s = (Ok nuevo, s1) /\
      eliminar_item (id nuevo) s1 =
        (Ok tt, {| items_db := items_db s; next_id := next_id s + 1 |}).
Proof.
  intros s body now Hb Hv. eexists _, _.
  split; [by apply crear_item_valid|]. simpl.
  set (nuevo := {| base := body; id := next_id s; fecha_creacion := now |}).
  change (next_id s) with (id nuevo) at 1.
  rewrite (eliminar_item_found _ _ (length (items_db s)) nuevo).
  - simpl. by rewrite (delete_middle _ [] nuevo), app_nil_r.
  - simpl. apply (find_by_id_snoc (items_db s) nuevo). by apply ids_below_fresh.
Qed.

Lemma create_then_delete_restores_items_witness :
  exists (nuevo : Item) (s1 : db),
    crear_item cable_usb 300 (seed 100 200) = (Ok nuevo, s1) /\
    eliminar_item (id nuevo) s1 =
      (Ok tt, {| items_db := items_db (seed 100 200);
                 next_id := next_id (seed 100 200) + 1 |}).
Proof.
  apply (create_then_delete_restores_items (seed 100 200) cable_usb 300).
  - unfold ids_below. simpl. repeat constructor.
  - reflexivity.
Defined.

(** X12. Once an item is deleted from a registry with pairwise distinct
    ids, the sequence is one shorter and every further write addressed to
    its id, a second delete, a patch or an update with a valid body, fails
    with not-found and changes nothing. *)
Theorem deleted_id_rejects_writes :
  forall (s : db) (item : Item),
    ids_unique s -> item ∈ items_db s ->
    exists s' : db,
      eliminar_item (id item) s = (Ok tt, s') /\
      (length (items_db s') + 1 = length (items_db s))%nat /\
      eliminar_item (id item) s' = (Error (NotFound (id item)), s') /\
      (forall d, actualizar_disponibilidad (id item) d s'
                 = (Error (NotFound (id item)), s')) /\
      (forall body, ItemBase_valid body = true ->
                    actualizar_item (id item) body s'
                    = (Error (NotFound (id item)), s')).
Proof.
  intros s item Hu Hin.
  destruct (find_by_id_unique (id item) (items_db s) item Hu Hin eq_refl)
    as (k & Hf & Hk).
  destruct (split_at _ _ _ Hk) as [Hsplit Hdel].
  exists {| items_db := delete k (items_db s); next_id := next_id s |}.
  assert (find_by_id (id item) (delete k (items_db s)) = None) as Hgone.
  { rewrite Hdel. apply find_by_id_removed. rewrite <- Hsplit. exact Hu. }
  split_and!.
  - by apply (eliminar_item_found _ _ _ item).
  - simpl. rewrite length_delete by (by eexists).
    pose proof (lookup_lt_Some _ _ _ Hk). lia.
  - by apply eliminar_item_missing.
  - intros d. by apply actualizar_disponibilidad_missing.
  - intros body Hv. by apply actualizar_item_missing.
Qed.

Lemma deleted_id_rejects_writes_witness :
  exists s' : db,
    eliminar_item (id (laptop 100)) (seed 100 200) = (Ok tt, s') /\
    (length (items_db s') + 1)%nat = length (items_db (seed 100 200)) /\
    eliminar_item (id (laptop 100)) s' = (Error (NotFound (id (laptop 100))), s') /\
    (forall d, actualizar_disponibilidad (id (laptop 100)) d s'
               = (Error (NotFound (id (laptop 100))), s')) /\
    (forall body, ItemBase_valid body = true ->
                  actualizar_item (id (laptop 100)) body s'
                  = (Error (NotFound (id (laptop 100))), s')).
Proof.
  apply (deleted_id_rejects_writes (seed 100 200) (laptop 100)).
  - apply seed_ids_unique.
  - apply laptop_stored.
Defined.

(** X13. The last patch wins: patching an id twice gives the same answer
    and the same registry as the second patch alone, in every state, found
    or not. *)
Theorem last_patch_wins :
  forall (s : db) (i : Z) (d1 d2 : bool),
    actualizar_disponibilidad i d2 (actualizar_disponibilidad i d1 s).2
    = actualizar_disponibilidad i d2 s.
Proof.
  intros s i d1 d2.
  destruct (find_by_id i (items_db s)) as [[k old]|] eqn:Hf.
  - destruct (find_by_id_Some _ _ _ _ Hf) as (Hk & Hid & _).
    rewrite (actualizar_disponibilidad_found i d1 s k old Hf). cbn [snd].
    erewrite (actualizar_disponibilidad_found i d2 _ k);
      [|simpl; by apply (find_by_id_insert i (items_db s) k old)].
    rewrite (actualizar_disponibilidad_found i d2 s k old Hf).
    simpl. by rewrite list_insert_insert_eq.
  - by rewrite (actualizar_disponibilidad_missing i d1 s Hf).
Qed.

(** X14. An update with a valid body overwrites whatever an earlier update
    or patch of the same id wrote: the answer and the registry are those of
    the update alone, creation time included. *)
Theorem update_overwrites_earlier_writes :
  forall (s : db) (i : Z) (body earlier : ItemBase) (d : bool),
    ItemBase_valid body = true ->
    actualizar_item i body (actualizar_item i earlier s).2
      = actualizar_item i body s /\
    actualizar_item i body (actualizar_disponibilidad i d s).2
      = actualizar_item i body s.
Proof.
  intros s i body earlier d Hv.
  destruct (find_by_id i (items_db s)) as [[k old]|] eqn:Hf.
  - destruct (find_by_id_Some _ _ _ _ Hf) as (Hk & Hid & _). split.
    + destruct (ItemBase_valid earlier) eqn:He.
      * rewrite (actualizar_item_found i earlier s k old He Hf). cbn [snd].
        erewrite (actualizar_item_found i body _ k); [|done|
          simpl; by apply (find_by_id_insert i (items_db s) k old)].
        rewrite (actualizar_item_found i body s k old Hv Hf).
        simpl. by rewrite list_insert_insert_eq.
      * by rewrite (actualizar_item_invalid i earlier s He).
    + rewrite (actualizar_disponibilidad_found i d s k old Hf). cbn [snd].
      erewrite (actualizar_item_found i body _ k); [|done|
        simpl; by apply (find_by_id_insert i (items_db s) k old)].
      rewrite (actualizar_item_found i body s k old Hv Hf).
      simpl. by rewrite list_insert_insert_eq.
  - split.
    + destruct (ItemBase_valid earlier) eqn:He.
      * by rewrite (actualizar_item_missing i earlier s He Hf).
      * by rewrite (actualizar_item_invalid i earlier s He).
    + by rewrite (actualizar_disponibilidad_missing i d s Hf).
Qed.

Lemma update_overwrites_earlier_writes_witness :
  actualizar_item 2 cable_usb (actualizar_item 2 laptop_hp (seed 100 200)).2
    = actualizar_item 2 cable_usb (seed 100 200) /\
  actualizar_item 2 cable_usb (actualizar_disponibilidad 2 false (seed 100 200)).2
    = actualizar_item 2 cable_usb (seed 100 200).
Proof.
  apply (update_overwrites_earlier_writes (seed 100 200) 2 cable_usb laptop_hp false).
  reflexivity.
Defined.

(** X15. With a valid body an update fails with not-found exactly when no
    stored item has the id, and a patch fails with not-found exactly when no
    stored item has the id; in both cases the registry is left as it was. *)
Theorem update_and_patch_not_found_iff_absent :
  forall (s : db) (i : Z) (body : ItemBase) (d : bool),
    ItemBase_valid body = true ->
    let absent := forall item, item ∈ items_db s -> id item <> i in
    ((actualizar_item i body s).1 = Error (NotFound i) <-> absent) /\
    ((actualizar_disponibilidad i d s).1 = Error (NotFound i) <-> absent) /\
    (absent -> actualizar_item i body s = (Error (NotFound i), s) /\
               actualizar_disponibilidad i d s = (Error (NotFound i), s)).
Proof.
  intros s i body d Hv absent. unfold absent.
  rewrite <- find_by_id_None.
  destruct (find_by_id i (items_db s)) as [[k old]|] eqn:Hf.
  - rewrite (actualizar_item_found _ _ _ _ _ Hv Hf).
    rewrite (actualizar_disponibilidad_found _ _ _ _ _ Hf).
    split_and!; try done.
  - rewrite (actualizar_item_missing _ _ _ Hv Hf).
    rewrite (actualizar_disponibilidad_missing _ _ _ Hf).
    split_and!; done.
Qed.

Lemma update_and_patch_not_found_iff_absent_witness :
  actualizar_item 9999 cable_usb (seed 100 200)
    = (Error (NotFound 9999), seed 100 200) /\
  actualizar_disponibilidad 9999 true (seed 100 200)
    = (Error (NotFound 9999), seed 100 200).
Proof.
  destruct (update_and_patch_not_found_iff_absent (seed 100 200) 9999
              cable_usb true eq_refl) as (_ & _ & Habs).
  by apply Habs, seed_absent.
Defined.

(** X16. Narrowing the price window narrows the listing: when the bounds
    [lo'] and [hi'] enclose [lo] and [hi], the listing for the inner window
    is the listing for the outer window filtered once more, so it is a
    subsequence of it in the same order. *)
Theorem narrower_window_lists_subsequence :
  forall (s : db) (disp : option bool) (lo lo' hi hi' : PyFloat.float),
    PyFloat.leb lo' lo = true -> PyFloat.leb hi hi' = true ->
    exists (inner outer : list Item),
      obtener_items disp (Some lo) (Some hi) s = (Ok inner, s) /\
      obtener_items disp (Some lo') (Some hi') s = (Ok outer, s) /\
      inner = filter (fun item => satisfiesb disp (Some lo) (Some hi) item = true) outer /\
      inner `sublist_of` outer.
Proof.
  intros s disp lo lo' hi hi' Hlo Hhi. rewrite !obtener_items_eq.
  eexists _, _. split; [reflexivity|]. split; [reflexivity|].
  assert (filter (fun item => satisfiesb disp (Some lo) (Some hi) item = true) (items_db s)
          = filter (fun item => satisfiesb disp (Some lo) (Some hi) item = true)
              (filter (fun item => satisfiesb disp (Some lo') (Some hi') item = true)
                 (items_db s))) as Heq.
  { rewrite list_filter_filter. apply list_filter_iff. intros item.
    split; [|tauto]. intros Hin. split; [done|].
    unfold satisfiesb in *.
    apply andb_true_iff in Hin as [Hin H2].
    apply andb_true_iff in Hin as [H0 H1].
    rewrite H0. simpl.
    by rewrite (leb_trans _ _ _ Hlo H1), (leb_trans _ _ _ H2 Hhi). }
  split; [exact Heq|]. rewrite Heq at 1. apply sublist_filter.
Qed.

Lemma narrower_window_lists_subsequence_witness :
  exists (inner outer : list Item),
    obtener_items None (Some (PyFloat.of_int 50)) (Some (PyFloat.of_int 2000))
      (seed 100 200) = (Ok inner, seed 100 200) /\
    obtener_items None (Some (PyFloat.of_int 10)) (Some (PyFloat.of_int 5000))
      (seed 100 200) = (Ok outer, seed 100 200) /\
    inner = filter (fun item => satisfiesb None (Some (PyFloat.of_int 50))
                                  (Some (PyFloat.of_int 2000)) item = true) outer /\
    inner `sublist_of` outer.
Proof.
  apply (narrower_window_lists_subsequence (seed 100 200) None
           (PyFloat.of_int 50) (PyFloat.of_int 10)
           (PyFloat.of_int 2000) (PyFloat.of_int 5000)); reflexivity.
Defined.


